(** * Arty: the collection store ([api/Collection.py])

    A shallow embedding of [CollectionManager], [Collection] and
    [CollectionImage], and the properties of the metadata store that the
    specification states about them.

    Conventions of the embedding:
    - a Python [str] is a [string], read as a sequence of code points below
      256; [Optional[str]] is [option string];
    - a raised exception is the [Raise] case of [result];
    - the disk is a finite map from paths to nodes, threaded explicitly
      through every operation that touches it (monad [M]);
    - the mutable [self] of a [Collection] method is part of the state the
      method runs in;
    - the functions of [json] and [ntpath] that the module calls are the
      members of the interface [PyLib]. *)

From Stdlib Require Import String Ascii List Bool Arith Lia Sorted.
From stdpp Require Import base option list strings gmap fin_maps.

(** ** Exceptions and results *)

Inductive exn : Type :=
  | FileNotFoundError
  | NotADirectoryError
  | IsADirectoryError
  | SameFileError (name : string)
  | ValueError (msg : string)
  | TypeError
  | AttributeError
  | KeyError (key : string)
  | JSONDecodeError
  | OutOfModel.
(* [OutOfModel]: Python would go on with a value that the typed records
   below cannot hold (a number where a [str] is declared, say). *)

Inductive result (A : Type) : Type :=
  | OK (a : A)
  | Raise (e : exn).
Arguments OK {A} a.
Arguments Raise {A} e.

(** ** Strings, as Python's [str] methods use them *)

Module Str.

(* [c.lower()] for a code point below 256: A to Z, and the capital
   letters of Latin-1 (192 to 222, the multiplication sign 215 apart) *)
Definition lower_ascii (c : ascii) : ascii :=
  let n := nat_of_ascii c in
  if Nat.leb 65 n && Nat.leb n 90 then ascii_of_nat (n + 32)
  else if Nat.leb 192 n && Nat.leb n 222 && negb (Nat.eqb n 215)
       then ascii_of_nat (n + 32)
  else c.

(* [s.lower()] *)
Fixpoint lower (s : string) : string :=
  match s with
  | EmptyString => EmptyString
  | String c s' => String (lower_ascii c) (lower s')
  end.

(* [s[n:]] *)
Fixpoint drop (n : nat) (s : string) : string :=
  match n, s with
  | O, _ => s
  | S n', String _ s' => drop n' s'
  | S _, EmptyString => EmptyString
  end.

(* [s.startswith(p)] *)
Fixpoint startswith (s p : string) {struct p} : bool :=
  match p, s with
  | EmptyString, _ => true
  | String a p', String b s' => Ascii.eqb a b && startswith s' p'
  | String _ _, EmptyString => false
  end.

(* [s.endswith(suf)] *)
Definition endswith (s suf : string) : bool :=
  Nat.leb (String.length suf) (String.length s)
  && String.eqb (drop (String.length s - String.length suf) s) suf.

(* [s.endswith(t)] for a tuple [t] of suffixes *)
Definition endswith_any (s : string) (sufs : list string) : bool :=
  existsb (endswith s) sufs.

(* [s[2:-1]] *)
Definition slice_2_m1 (s : string) : string :=
  substring 2 (String.length s - 1 - 2) s.

(* truth value of an [Optional[str]]: [None] and [""] are false *)
Definition truthy (o : option string) : bool :=
  match o with
  | Some s => negb (String.eqb s "")
  | None => false
  end.

(* [o + ", "] for an [Optional[str]] [o]: [None + str] is a TypeError *)
Definition add (o : option string) (s : string) : result string :=
  match o with
  | Some a => OK (a +:+ s)
  | None => Raise TypeError
  end.

(* [str.format] of one argument: [None] renders as "None" *)
Definition fmt (o : option string) : string :=
  match o with
  | Some a => a
  | None => "None"
  end.

End Str.

(** ** The data model *)

(* class CollectionImage *)
Record CollectionImage : Type := mkImage {
  filename : string;
  title : option string;
  artist : option string;
  year : option string;
  technique : option string;
  conservation_site : option string;
  production_site : option string;
  dimensions : option string
}.

(* class Collection; its [title] field is [coll_title] here, the name
   [title] being the image's *)
Record Collection : Type := mkCollection {
  work_directory : string;
  coll_title : option string;
  collection : list CollectionImage
}.

(* [CollectionImage(filename)]: every other field takes its default *)
Definition bare (f : string) : CollectionImage :=
  mkImage f None None None None None None None.

(* [CollectionImage.__eq__] *)
Definition image_eq (self other : CollectionImage) : bool :=
  String.eqb (filename self) (filename other).

(* [x in l] on a list of images: some element is [==] to [x] *)
Definition image_in (x : CollectionImage) (l : list CollectionImage) : bool :=
  existsb (fun e => image_eq e x) l.

Definition filenames (l : list CollectionImage) : list string :=
  filename <$> l.

(** ** [CollectionImage.to_reference] *)

(* The keyword arguments of [format] are evaluated in the order they are
   written; the format string then places them. *)
Definition to_reference (self : CollectionImage) : result string :=
  match (if Str.truthy (artist self) then Str.add (artist self) ", " else OK "") with
  | Raise e => Raise e
  | OK artist_if_artist =>
  match Str.add (title self) ", " with
  | Raise e => Raise e
  | OK title_ =>
  match (if negb (Str.truthy (artist self))
         then Str.add (production_site self) ", " else OK "") with
  | Raise e => Raise e
  | OK production_site_if_no_artist =>
  match Str.add (year self) ", " with
  | Raise e => Raise e
  | OK date =>
  match Str.add (technique self) ", " with
  | Raise e => Raise e
  | OK technique_ =>
  match Str.add (dimensions self) ", " with
  | Raise e => Raise e
  | OK dimensions_ =>
      OK (artist_if_artist +:+ title_ +:+ production_site_if_no_artist
          +:+ date +:+ technique_ +:+ dimensions_
          +:+ Str.fmt (conservation_site self))
  end end end end end end.

(** ** The constants of [CollectionManager] *)

Definition AUTHORIZED_IMAGE_FORMATS : list string :=
  [".jpg"; ".jpeg"; ".png"; ".webp"; ".tiff"].

Definition META_FILENAME : string := ".collection".

(* [filename.lower().endswith(CollectionManager.AUTHORIZED_IMAGE_FORMATS)] *)
Definition is_authorized (name : string) : bool :=
  Str.endswith_any (Str.lower name) AUTHORIZED_IMAGE_FORMATS.

(** ** The loop of [__check_files] *)

(* One iteration of [for filename in os.listdir(...)]. *)
Definition check_file (coll : list CollectionImage) (name : string)
  : list CollectionImage :=
  if is_authorized name then
    let new_image := bare name in
    if negb (image_in new_image coll) then coll ++ [new_image] else coll
  else coll.

Definition check_files_loop (listing : list string) (coll : list CollectionImage)
  : list CollectionImage :=
  fold_left check_file listing coll.

(** ** JSON documents and the library interface *)

(* What [json.loads] returns: [None], [bool], [int], [str], [list], and
   [dict] with its keys in insertion order. *)
#[warnings="-register-all"]
Inductive json : Type :=
  | JNull
  | JBool (b : bool)
  | JNum (n : Z)
  | JStr (s : string)
  | JArr (items : list json)
  | JObj (members : list (string * json)).

(* The library functions the module calls and does not define. *)
Class PyLib : Type := {
  (* [json.dumps(obj, indent=indent)] *)
  json_dumps : option nat -> json -> string;
  (* [json.loads(text)]; [None] stands for [JSONDecodeError] *)
  json_loads : string -> option json;
  (* [ntpath.basename(path)] *)
  ntpath_basename : string -> string
}.

(* [d[key]] *)
Definition getitem (d : json) (key : string) : result json :=
  match d with
  | JObj members =>
      match List.find (fun kv => String.eqb (fst kv) key) members with
      | Some kv => OK (snd kv)
      | None => Raise (KeyError key)
      end
  | _ => Raise TypeError
  end.

(* [d.get(key)] on the members of a dict *)
Definition lookup_member (members : list (string * json)) (key : string)
  : option json :=
  option_map snd (List.find (fun kv => String.eqb (fst kv) key) members).

Definition json_of_optstr (o : option string) : json :=
  match o with
  | Some s => JStr s
  | None => JNull
  end.

(* a value read into a field declared [str] *)
Definition str_of_json (j : json) : result string :=
  match j with
  | JStr s => OK s
  | _ => Raise OutOfModel
  end.

(* a value read into a field declared [Optional[str]] *)
Definition optstr_of_json (j : json) : result (option string) :=
  match j with
  | JNull => OK None
  | JStr s => OK (Some s)
  | _ => Raise OutOfModel
  end.

(* an [Optional[str] = None] field of [from_dict]: a missing key takes the
   default *)
Definition optional_field (members : list (string * json)) (key : string)
  : result (option string) :=
  match lookup_member members key with
  | Some j => optstr_of_json j
  | None => OK None
  end.

(* [CollectionImage.to_dict()] (dataclass_json): the fields in declaration
   order *)
Definition image_to_dict (i : CollectionImage) : json :=
  JObj [ ("filename", JStr (filename i));
         ("title", json_of_optstr (title i));
         ("artist", json_of_optstr (artist i));
         ("year", json_of_optstr (year i));
         ("technique", json_of_optstr (technique i));
         ("conservation_site", json_of_optstr (conservation_site i));
         ("production_site", json_of_optstr (production_site i));
         ("dimensions", json_of_optstr (dimensions i)) ].

(* [Collection.to_dict()] *)
Definition collection_to_dict (c : Collection) : json :=
  JObj [ ("work_directory", JStr (work_directory c));
         ("title", json_of_optstr (coll_title c));
         ("collection", JArr (map image_to_dict (collection c))) ].

(* [CollectionImage.from_dict(item)] (dataclass_json): the fields are looked
   up by name, keys that are no field are ignored, and an item that is no
   dict has no [items()] *)
Definition image_from_dict (item : json) : result CollectionImage :=
  match item with
  | JObj members =>
      match getitem item "filename" with
      | Raise e => Raise e
      | OK jf =>
      match str_of_json jf with
      | Raise e => Raise e
      | OK f =>
      match optional_field members "title" with
      | Raise e => Raise e
      | OK t =>
      match optional_field members "artist" with
      | Raise e => Raise e
      | OK a =>
      match optional_field members "year" with
      | Raise e => Raise e
      | OK y =>
      match optional_field members "technique" with
      | Raise e => Raise e
      | OK te =>
      match optional_field members "conservation_site" with
      | Raise e => Raise e
      | OK cs =>
      match optional_field members "production_site" with
      | Raise e => Raise e
      | OK ps =>
      match optional_field members "dimensions" with
      | Raise e => Raise e
      | OK d => OK (mkImage f t a y te cs ps d)
      end end end end end end end end end
  | _ => Raise AttributeError
  end.

(* [[f(item) for item in items]]: the first exception ends the
   comprehension *)
Fixpoint comprehension {A B} (f : A -> result B) (items : list A)
  : result (list B) :=
  match items with
  | [] => OK []
  | x :: rest =>
      match f x with
      | Raise e => Raise e
      | OK y =>
          match comprehension f rest with
          | Raise e => Raise e
          | OK ys => OK (y :: ys)
          end
      end
  end.

(* the items that [for item in j] yields *)
Definition iterate (j : json) : result (list json) :=
  match j with
  | JArr items => OK items
  | JObj members => OK (map (fun kv => JStr (fst kv)) members)
  | JStr s => OK (map (fun c => JStr (String c EmptyString)) (list_ascii_of_string s))
  | _ => Raise TypeError
  end.

(** ** The disk *)

Inductive node : Type :=
  | File (content : string)
  | Dir (entries : list string).
(* [entries]: the names of the direct children, in the order [os.listdir]
   enumerates them. *)

Abbreviation filesystem := (gmap string node).

(* [os.path.join(a, b)] (posixpath) *)
Definition os_path_join (a b : string) : string :=
  if Str.startswith b "/" then b
  else if String.eqb a "" || Str.endswith a "/" then a +:+ b
  else a +:+ "/" +:+ b.

(** ** State and exceptions *)

Definition M (S A : Type) : Type := S -> result A * S.

Definition ret {S A} (a : A) : M S A := fun s => (OK a, s).

Definition raise {S A} (e : exn) : M S A := fun s => (Raise e, s).

Definition bind {S A B} (m : M S A) (k : A -> M S B) : M S B :=
  fun s =>
    match m s with
    | (OK a, s') => k a s'
    | (Raise e, s') => (Raise e, s')
    end.

Notation "'let*' x := m 'in' k" := (bind m (fun x => k))
  (at level 10, x name, m at level 100, k at level 200, only parsing).
Notation "'do*' m 'in' k" := (bind m (fun _ => k))
  (at level 10, m at level 100, k at level 200, only parsing).

(* [try: m  except SameFileError: handler] *)
Definition except_SameFileError {S A} (m : M S A) (handler : M S A) : M S A :=
  fun s =>
    match m s with
    | (Raise (SameFileError _), s') => handler s'
    | r => r
    end.

(* a value or an exception computed without touching the state *)
Definition of_result {S A} (r : result A) : M S A := fun s => (r, s).

(** ** File-system primitives *)

(* [os.listdir(path)] *)
Definition os_listdir (path : string) : M filesystem (list string) :=
  fun fs =>
    match fs !! path with
    | Some (Dir entries) => (OK entries, fs)
    | Some (File _) => (Raise NotADirectoryError, fs)
    | None => (Raise FileNotFoundError, fs)
    end.

(* the listing of a directory once [name] exists in it *)
Definition add_entry (name : string) (entries : list string) : list string :=
  if bool_decide (name ∈ entries) then entries else entries ++ [name].

(* an empty regular file [name] comes to exist in [dir] *)
Definition create_file (dir name : string) : M filesystem unit :=
  fun fs =>
    match fs !! dir with
    | Some (Dir entries) =>
        (OK tt, <[os_path_join dir name := File ""]>
                  (<[dir := Dir (add_entry name entries)]> fs))
    | Some (File _) => (Raise NotADirectoryError, fs)
    | None => (Raise FileNotFoundError, fs)
    end.

(* [open(os.path.join(dir, name), "w")], [name] a single path component:
   the file is created or truncated *)
Definition open_w (dir name : string) : M filesystem unit :=
  fun fs =>
    match fs !! os_path_join dir name with
    | Some (Dir _) => (Raise IsADirectoryError, fs)
    | _ => create_file dir name fs
    end.

(* [open(os.path.join(dir, name), "a").close()] *)
Definition open_a_close (dir name : string) : M filesystem unit :=
  fun fs =>
    match fs !! os_path_join dir name with
    | Some (Dir _) => (Raise IsADirectoryError, fs)
    | Some (File _) => (OK tt, fs)
    | None => create_file dir name fs
    end.

(* [f.write(text)] on the file at [path], open for writing and empty *)
Definition file_write (path text : string) : M filesystem unit :=
  fun fs => (OK tt, <[path := File text]> fs).

(* [open(path, "r")] then [read()] *)
Definition read_file (path : string) : M filesystem string :=
  fun fs =>
    match fs !! path with
    | Some (File content) => (OK content, fs)
    | Some (Dir _) => (Raise IsADirectoryError, fs)
    | None => (Raise FileNotFoundError, fs)
    end.

(* [shutil.copyfile(src, os.path.join(dir, name))] *)
Definition copyfile (src dir name : string) : M filesystem unit :=
  fun fs =>
    let dst := os_path_join dir name in
    if bool_decide (src = dst) && bool_decide (is_Some (fs !! src)) then
      (Raise (SameFileError src), fs)
    else
      (let* content := read_file src in
       do* open_w dir name in
       file_write dst content) fs.

(** ** [CollectionManager] *)

Section Store.

Context `{Lib : PyLib}.

(* [collection.to_json()] (dataclass_json): [json.dumps] of [to_dict()] *)
Definition to_json (c : Collection) : string :=
  json_dumps None (collection_to_dict c).

(* the text that [__write_meta] writes:
   [json.dumps(json.loads(collection.to_json()), indent=4)] *)
Definition formatted_json (c : Collection) : result string :=
  match json_loads (to_json c) with
  | Some json_data => OK (json_dumps (Some 4) json_data)
  | None => Raise JSONDecodeError
  end.

Definition meta_file_path (c : Collection) : string :=
  os_path_join (work_directory c) META_FILENAME.

(* [CollectionManager.__write_meta]; the [isinstance] check holds by
   typing. The file is opened, and so truncated, before the text is
   computed. *)
Definition write_meta (c : Collection) : M filesystem unit :=
  do* open_w (work_directory c) META_FILENAME in
  let* formatted := of_result (formatted_json c) in
  file_write (meta_file_path c) formatted.

(* the body of [__load_meta] once the file is read *)
Definition decode_meta (path coll_json : string) : result Collection :=
  match json_loads coll_json with
  | None => Raise JSONDecodeError
  | Some coll_dict =>
  match getitem coll_dict "title" with
  | Raise e => Raise e
  | OK title_ =>
  match getitem coll_dict "collection" with
  | Raise e => Raise e
  | OK items_ =>
  match iterate items_ with
  | Raise e => Raise e
  | OK items =>
  match comprehension image_from_dict items with
  | Raise e => Raise e
  | OK images =>
  match optstr_of_json title_ with
  | Raise e => Raise e
  | OK t => OK (mkCollection path t images)
  end end end end end end.

(* [CollectionManager.__load_meta] *)
Definition load_meta (path : string) : M filesystem Collection :=
  let* coll_json := read_file (os_path_join path META_FILENAME) in
  of_result (decode_meta path coll_json).

(* [CollectionManager.__create_meta] *)
Definition create_meta (path : string) : M filesystem unit :=
  open_a_close path META_FILENAME.

(* [CollectionManager.__check_files]: the list of the collection is
   extended in place and the same collection is returned *)
Definition check_files (c : Collection) : M filesystem Collection :=
  let* listing := os_listdir (work_directory c) in
  ret (mkCollection (work_directory c) (coll_title c)
         (check_files_loop listing (collection c))).

(* [CollectionManager.load] *)
Definition load (path : string) : M filesystem Collection :=
  let* listing := os_listdir path in
  if bool_decide (listing = []) then raise FileNotFoundError
  else
    let* listing' := os_listdir path in
    let* loaded :=
      (if bool_decide (META_FILENAME ∈ listing') then load_meta path
       else
         do* create_meta path in
         ret (mkCollection path (Some "Untitled Collection") [])) in
    let* checked := check_files loaded in
    do* write_meta checked in
    ret checked.

(* [CollectionManager.save] *)
Definition save (c : Collection) : M filesystem unit :=
  write_meta c.

(** ** [Collection] methods: the state is [self] and the disk *)

Definition method (A : Type) : Type := M (Collection * filesystem) A.

Definition get_self : method Collection :=
  fun s => (OK (fst s), s).

(* [self.collection = l] *)
Definition assign_collection (l : list CollectionImage) : method unit :=
  fun s =>
    (OK tt, (mkCollection (work_directory (fst s)) (coll_title (fst s)) l, snd s)).

(* a [CollectionManager] call made from a method *)
Definition on_disk {A} (m : M filesystem A) : method A :=
  fun s =>
    match m (snd s) with
    | (r, fs') => (r, (fst s, fs'))
    end.

(* [Collection.get_collection] *)
Definition get_collection : method (list CollectionImage) :=
  let* self := get_self in
  ret (collection self).

(* [Collection.set_collection] *)
Definition set_collection (coll_list : list CollectionImage) : method unit :=
  do* assign_collection coll_list in
  let* self := get_self in
  on_disk (save self).

(* the cleaning of [source] at the head of [add_image] *)
Definition clean_source (source : string) : string :=
  if Str.startswith source "b'" && Str.endswith source "'"
  then Str.slice_2_m1 source
  else source.

(* [Collection.add_image]; [source] is [str(source)] *)
Definition add_image (source : string) : method CollectionImage :=
  let source := clean_source source in
  let file_name := ntpath_basename source in
  if negb (is_authorized file_name) then
    raise (ValueError ("Unauthorized file format for: " +:+ file_name))
  else
    let* self := get_self in
    do* except_SameFileError
          (on_disk (copyfile source (work_directory self) file_name))
          (raise (SameFileError file_name)) in
    let new_image := bare file_name in
    let* self := get_self in
    do* assign_collection (collection self ++ [new_image]) in
    let* self := get_self in
    do* on_disk (save self) in
    ret new_image.

(* [Collection.get_absolute_path]; the [isinstance] check holds by
   typing *)
Definition get_absolute_path (collection_image : CollectionImage)
  : method string :=
  let* self := get_self in
  ret (os_path_join (work_directory self) (filename collection_image)).

End Store.

(** ** A model of the library: JSON text and [ntpath.basename]

    [str] is read as a sequence of code points below 256. Numbers are
    integers; a text with a fraction or an exponent is not read. *)

Module Json.

Definition dquote : ascii := ascii_of_nat 34.
Definition backslash : ascii := ascii_of_nat 92.
Definition newline : ascii := ascii_of_nat 10.

Definition chr (c : ascii) : string := String c EmptyString.

Definition hex_digit (n : nat) : ascii :=
  nth n (list_ascii_of_string "0123456789abcdef") "0"%char.

Fixpoint index_of (c : ascii) (l : list ascii) : option nat :=
  match l with
  | [] => None
  | x :: l' => if Ascii.eqb x c then Some 0 else option_map S (index_of c l')
  end.

Definition hex_value (c : ascii) : option nat :=
  match index_of c (list_ascii_of_string "0123456789abcdef") with
  | Some n => Some n
  | None => option_map (Nat.add 10) (index_of c (list_ascii_of_string "ABCDEF"))
  end.

(* one character inside a string literal, [ensure_ascii=True] *)
Definition escape (c : ascii) : string :=
  let n := nat_of_ascii c in
  if Nat.eqb n 34 then String backslash (chr dquote)
  else if Nat.eqb n 92 then String backslash (chr backslash)
  else if Nat.eqb n 10 then String backslash "n"
  else if Nat.eqb n 13 then String backslash "r"
  else if Nat.eqb n 9 then String backslash "t"
  else if Nat.eqb n 8 then String backslash "b"
  else if Nat.eqb n 12 then String backslash "f"
  else if Nat.ltb n 32 || Nat.leb 127 n then
    String backslash
      ("u00" +:+ chr (hex_digit (n / 16)) +:+ chr (hex_digit (n mod 16)))
  else chr c.

Fixpoint escape_all (s : string) : string :=
  match s with
  | EmptyString => EmptyString
  | String c s' => escape c +:+ escape_all s'
  end.

Definition quoted (s : string) : string :=
  chr dquote +:+ escape_all s +:+ chr dquote.

Fixpoint spaces (n : nat) : string :=
  match n with
  | O => EmptyString
  | S n' => String " " (spaces n')
  end.

Fixpoint digits (fuel n : nat) (acc : string) : string :=
  match fuel with
  | O => acc
  | S fuel' =>
      let acc' := String (hex_digit (n mod 10)) acc in
      if Nat.ltb n 10 then acc' else digits fuel' (n / 10) acc'
  end.

Definition int_text (z : Z) : string :=
  let n := Z.to_nat (Z.abs z) in
  (if Z.ltb z 0 then "-" else EmptyString) +:+ digits (S n) n EmptyString.

Fixpoint join (sep : string) (l : list string) : string :=
  match l with
  | [] => EmptyString
  | [x] => x
  | x :: l' => x +:+ sep +:+ join sep l'
  end.

(* the line break and indentation in front of an item at depth [level] *)
Definition break (indent : option nat) (level : nat) : string :=
  match indent with
  | None => EmptyString
  | Some k => String newline (spaces (k * level))
  end.

(* what follows the comma between two items at depth [level] *)
Definition gap (indent : option nat) (level : nat) : string :=
  match indent with
  | None => " "
  | Some _ => break indent level
  end.

Definition item_separator (indent : option nat) (level : nat) : string :=
  String "," (gap indent level).

Fixpoint dumps_at (indent : option nat) (level : nat) (j : json) : string :=
  match j with
  | JNull => "null"
  | JBool true => "true"
  | JBool false => "false"
  | JNum z => int_text z
  | JStr s => quoted s
  | JArr [] => "[]"
  | JArr items =>
      "[" +:+ break indent (S level)
      +:+ join (item_separator indent (S level))
            (map (dumps_at indent (S level)) items)
      +:+ break indent level +:+ "]"
  | JObj [] => "{}"
  | JObj members =>
      "{" +:+ break indent (S level)
      +:+ join (item_separator indent (S level))
            (map (fun kv =>
                    match kv with
                    | (k, v) => quoted k +:+ ": " +:+ dumps_at indent (S level) v
                    end) members)
      +:+ break indent level +:+ "}"
  end.

(* [json.dumps(j, indent=indent)] *)
Definition dumps (indent : option nat) (j : json) : string :=
  dumps_at indent 0 j.

Definition is_ws (c : ascii) : bool :=
  let n := nat_of_ascii c in
  Nat.eqb n 32 || Nat.eqb n 10 || Nat.eqb n 13 || Nat.eqb n 9.

Fixpoint skip_ws (s : string) : string :=
  match s with
  | String c s' => if is_ws c then skip_ws s' else s
  | EmptyString => EmptyString
  end.

Definition unescape (e : ascii) : option ascii :=
  let n := nat_of_ascii e in
  if Nat.eqb n 34 then Some dquote
  else if Nat.eqb n 92 then Some backslash
  else if Nat.eqb n 47 then Some "/"%char
  else if Nat.eqb n 110 then Some newline
  else if Nat.eqb n 114 then Some (ascii_of_nat 13)
  else if Nat.eqb n 116 then Some (ascii_of_nat 9)
  else if Nat.eqb n 98 then Some (ascii_of_nat 8)
  else if Nat.eqb n 102 then Some (ascii_of_nat 12)
  else None.

(* the four hexadecimal digits after a backslash and a [u] *)
Definition parse_u (s : string) : option (ascii * string) :=
  match s with
  | String a (String b (String c (String d rest))) =>
      match hex_value a, hex_value b, hex_value c, hex_value d with
      | Some 0, Some 0, Some h, Some l => Some (ascii_of_nat (16 * h + l), rest)
      | _, _, _, _ => None
      end
  | _ => None
  end.

(* the inside of a string literal, after the opening quote *)
Fixpoint parse_chars (fuel : nat) (s : string) : option (string * string) :=
  match fuel with
  | O => None
  | S fuel' =>
      match s with
      | EmptyString => None
      | String c s' =>
          if Ascii.eqb c dquote then Some (EmptyString, s')
          else if Ascii.eqb c backslash then
            match s' with
            | String e s'' =>
                if Ascii.eqb e "u" then
                  match parse_u s'' with
                  | Some (x, rest) =>
                      match parse_chars fuel' rest with
                      | Some (t, r) => Some (String x t, r)
                      | None => None
                      end
                  | None => None
                  end
                else
                  match unescape e with
                  | Some x =>
                      match parse_chars fuel' s'' with
                      | Some (t, r) => Some (String x t, r)
                      | None => None
                      end
                  | None => None
                  end
            | EmptyString => None
            end
          else if Nat.ltb (nat_of_ascii c) 32 then None
          else
            match parse_chars fuel' s' with
            | Some (t, r) => Some (String c t, r)
            | None => None
            end
      end
  end.

Definition digit_value (c : ascii) : option nat :=
  let n := nat_of_ascii c in
  if Nat.leb 48 n && Nat.leb n 57 then Some (n - 48) else None.

Fixpoint parse_digits (s : string) (acc : nat) : nat * string :=
  match s with
  | String c s' =>
      match digit_value c with
      | Some d => parse_digits s' (10 * acc + d)
      | None => (acc, s)
      end
  | EmptyString => (acc, s)
  end.

(* an unsigned integer: no leading zero, no fraction, no exponent *)
Definition parse_nat (s : string) : option (nat * string) :=
  match s with
  | String c s' =>
      match digit_value c with
      | Some d =>
          match parse_digits s (0 : nat) with
          | (n, rest) =>
              if Nat.eqb d 0 && negb (String.eqb rest s') then None
              else if Str.startswith rest "." || Str.startswith rest "e"
                      || Str.startswith rest "E" then None
              else Some (n, rest)
          end
      | None => None
      end
  | EmptyString => None
  end.

Definition keyword (s word : string) (j : json) : option (json * string) :=
  if Str.startswith s word then Some (j, Str.drop (String.length word) s) else None.

(* the text after leading white space and the character [c], when [c]
   comes next *)
Definition after (c : ascii) (s : string) : option string :=
  match skip_ws s with
  | String x r => if Ascii.eqb x c then Some r else None
  | EmptyString => None
  end.

Fixpoint parse_value (fuel : nat) (s : string) : option (json * string) :=
  match fuel with
  | O => None
  | S fuel' =>
      match skip_ws s with
      | EmptyString => None
      | String c rest =>
          if Ascii.eqb c dquote then
            match parse_chars (S (String.length rest)) rest with
            | Some (t, r) => Some (JStr t, r)
            | None => None
            end
          else if Ascii.eqb c "[" then
            match after "]" rest with
            | Some r => Some (JArr [], r)
            | None =>
                match parse_items fuel' rest with
                | Some (items, r) => Some (JArr items, r)
                | None => None
                end
            end
          else if Ascii.eqb c "{" then
            match after "}" rest with
            | Some r => Some (JObj [], r)
            | None =>
                match parse_members fuel' rest with
                | Some (members, r) => Some (JObj members, r)
                | None => None
                end
            end
          else if Ascii.eqb c "n" then keyword (String c rest) "null" JNull
          else if Ascii.eqb c "t" then keyword (String c rest) "true" (JBool true)
          else if Ascii.eqb c "f" then keyword (String c rest) "false" (JBool false)
          else if Ascii.eqb c "-" then
            match parse_nat rest with
            | Some (n, r) => Some (JNum (- Z.of_nat n), r)
            | None => None
            end
          else
            match parse_nat (String c rest) with
            | Some (n, r) => Some (JNum (Z.of_nat n), r)
            | None => None
            end
      end
  end

with parse_items (fuel : nat) (s : string) : option (list json * string) :=
  match fuel with
  | O => None
  | S fuel' =>
      match parse_value fuel' s with
      | Some (v, r) =>
          match after "," r with
          | Some r' =>
              match parse_items fuel' r' with
              | Some (vs, r'') => Some (v :: vs, r'')
              | None => None
              end
          | None =>
              match after "]" r with
              | Some r' => Some ([v], r')
              | None => None
              end
          end
      | None => None
      end
  end

with parse_members (fuel : nat) (s : string)
  : option (list (string * json) * string) :=
  match fuel with
  | O => None
  | S fuel' =>
      match after dquote s with
      | Some s1 =>
          match parse_chars (S (String.length s1)) s1 with
          | Some (k, s2) =>
              match after ":" s2 with
              | Some s3 =>
                  match parse_value fuel' s3 with
                  | Some (v, r) =>
                      match after "," r with
                      | Some r' =>
                          match parse_members fuel' r' with
                          | Some (kvs, r'') => Some ((k, v) :: kvs, r'')
                          | None => None
                          end
                      | None =>
                          match after "}" r with
                          | Some r' => Some ([(k, v)], r')
                          | None => None
                          end
                      end
                  | None => None
                  end
              | None => None
              end
          | None => None
          end
      | None => None
      end
  end.

(* [json.loads(text)] *)
Definition loads (text : string) : option json :=
  match parse_value (2 * String.length text + 2) text with
  | Some (j, rest) =>
      match skip_ws rest with
      | EmptyString => Some j
      | _ => None
      end
  | None => None
  end.

End Json.

Module Ntpath.

Definition is_sep (c : ascii) : bool :=
  Ascii.eqb c "/" || Ascii.eqb c (ascii_of_nat 92).

(* what follows the last separator of [s], after [cur] if there is none *)
Fixpoint tail_from (s cur : string) : string :=
  match s with
  | EmptyString => cur
  | String c s' =>
      if is_sep c then tail_from s' EmptyString
      else tail_from s' (cur +:+ String c EmptyString)
  end.

(* [ntpath.splitdrive(p)[1]] for a path with a drive letter or none *)
Definition without_drive (p : string) : string :=
  match p with
  | String _ (String ":" rest) => rest
  | _ => p
  end.

(* [ntpath.basename(p)], [p] not a UNC path *)
Definition basename (p : string) : string :=
  tail_from (without_drive p) EmptyString.

End Ntpath.

Definition py_lib : PyLib :=
  {| json_dumps := Json.dumps;
     json_loads := Json.loads;
     ntpath_basename := Ntpath.basename |}.

(** ** The JSON text that [Json.dumps] writes, for the proofs *)

(* white space only: skipped in front of any text *)
Definition blank (w : string) : Prop :=
  forall s, Json.skip_ws (w +:+ s) = Json.skip_ws s.

(* a text that does not go on as a number would *)
Definition delimited (s : string) : bool :=
  match s with
  | EmptyString => true
  | String c _ =>
      match Json.digit_value c with
      | Some _ => false
      | None => negb (Ascii.eqb c "." || Ascii.eqb c "e" || Ascii.eqb c "E")
      end
  end.

(* the number of nodes of a document, items counted twice: a bound on the
   fuel that reading it takes *)
Fixpoint json_size (j : json) : nat :=
  match j with
  | JArr items => S (list_sum (map (fun v => S (json_size v)) items))
  | JObj members =>
      S (list_sum (map (fun kv => match kv with (_, v) => S (json_size v) end) members))
  | _ => 1
  end.

(* the items of a list, as [dumps_at] writes them between the brackets *)
Definition items_text (indent : option nat) (level : nat) (items : list json) : string :=
  Json.join (Json.item_separator indent level) (map (Json.dumps_at indent level) items).

Definition member_text (indent : option nat) (level : nat) (kv : string * json) : string :=
  match kv with
  | (k, v) => Json.quoted k +:+ ": " +:+ Json.dumps_at indent level v
  end.

Definition members_text (indent : option nat) (level : nat)
    (members : list (string * json)) : string :=
  Json.join (Json.item_separator indent level) (map (member_text indent level) members).

Definition sizes (items : list json) : nat :=
  list_sum (map (fun v => S (json_size v)) items).

Definition member_sizes (members : list (string * json)) : nat :=
  list_sum (map (fun kv => match kv with (_, v) => S (json_size v) end) members).

(* with [fuel], the parser reads back what the printer writes *)
Definition reads_values (fuel : nat) : Prop :=
  forall j indent level rest,
    json_size j < fuel -> delimited rest = true ->
    Json.parse_value fuel (Json.dumps_at indent level j +:+ rest) = Some (j, rest).

Definition reads_items (fuel : nat) : Prop :=
  forall items indent level w rest,
    items <> [] -> blank w -> sizes items < fuel ->
    Json.parse_items fuel
      (w +:+ items_text indent (S level) items
         +:+ Json.break indent level +:+ String "]" rest)
    = Some (items, rest).

Definition reads_members (fuel : nat) : Prop :=
  forall members indent level w rest,
    members <> [] -> blank w -> member_sizes members < fuel ->
    Json.parse_members fuel
      (w +:+ members_text indent (S level) members
         +:+ Json.break indent level +:+ String "}" rest)
    = Some (members, rest).

(** ** The specification's wording, for comparison with the code *)

(* [to_reference] as the specification words it: the production site, when
   there is no artist, is rendered in the artist's place *)
Definition to_reference_spec (i : CollectionImage) : string :=
  (match artist i with
   | Some a => a +:+ ", "
   | None =>
       match production_site i with
       | Some p => p +:+ ", "
       | None => EmptyString
       end
   end)
  +:+ Str.fmt (title i) +:+ ", "
  +:+ Str.fmt (year i) +:+ ", "
  +:+ Str.fmt (technique i) +:+ ", "
  +:+ Str.fmt (dimensions i) +:+ ", "
  +:+ Str.fmt (conservation_site i).

(* a regular file, as opposed to a directory *)
Definition is_file (fs : filesystem) (path : string) : bool :=
  match fs !! path with
  | Some (File _) => true
  | _ => false
  end.

(** ** A disk and a collection for the examples *)

Definition example_disk : filesystem :=
  {[ "/coll" := Dir ["b.png"; "notes.txt"];
     "/coll/b.png" := File "B";
     "/coll/notes.txt" := File "N";
     "/empty" := Dir [];
     "/tmp" := Dir ["a.png"; "doc.pdf"];
     "/tmp/a.png" := File "A";
     "/tmp/doc.pdf" := File "P" ]}.

Definition example_collection : Collection :=
  mkCollection "/coll" (Some "Untitled Collection") [bare "b.png"].

(* a directory whose sidecar is the empty file that [__create_meta] leaves *)
Definition stale_disk : filesystem :=
  {[ "/coll" := Dir ["b.png"; ".collection"];
     "/coll/b.png" := File "B";
     "/coll/.collection" := File "" ]}.

(** ** Frames: what an operation leaves alone *)

(* the disk [fs'] is [fs] outside of [paths] *)
Definition unchanged_outside (paths : list string) (fs fs' : filesystem) : Prop :=
  forall p, p ∉ paths -> fs' !! p = fs !! p.

(* whatever its outcome, [m] leaves the state related by [R] *)
Definition preserves {S A} (R : S -> S -> Prop) (m : M S A) : Prop :=
  forall s r s', m s = (r, s') -> R s s'.

(** * Properties *)

(** ** Strings *)

Lemma string_app_cons (x : ascii) (a b : string) :
  String x a +:+ b = String x (a +:+ b).
Proof. reflexivity. Qed.

Lemma string_app_nil_l (a : string) : EmptyString +:+ a = a.
Proof. reflexivity. Qed.

Lemma string_app_assoc (a b c : string) : (a +:+ b) +:+ c = a +:+ (b +:+ c).
Proof.
  induction a as [|x a IH]; [reflexivity|].
  now rewrite !string_app_cons, IH.
Qed.

Lemma string_app_nil_r (a : string) : a +:+ EmptyString = a.
Proof.
  induction a as [|x a IH]; [reflexivity|].
  now rewrite string_app_cons, IH.
Qed.

Lemma string_length_app (a b : string) :
  String.length (a +:+ b) = (String.length a + String.length b)%nat.
Proof.
  induction a as [|x a IH]; [reflexivity|].
  rewrite string_app_cons. simpl. now rewrite IH.
Qed.

Lemma drop_app_length (a b : string) : Str.drop (String.length a) (a +:+ b) = b.
Proof.
  induction a as [|x a IH]; [now destruct b|].
  rewrite string_app_cons. exact IH.
Qed.

Lemma drop_is_suffix (n : nat) (s : string) : exists p, s = p +:+ Str.drop n s.
Proof.
  revert s; induction n as [|n IH]; intros s.
  - exists EmptyString. reflexivity.
  - destruct s as [|c s]; simpl.
    + exists EmptyString. reflexivity.
    + destruct (IH s) as [p Hp]. exists (String c p).
      rewrite string_app_cons. now rewrite <- Hp.
Qed.

Lemma endswith_spec (s suf : string) :
  Str.endswith s suf = true <-> exists p, s = p +:+ suf.
Proof.
  unfold Str.endswith. rewrite andb_true_iff, Nat.leb_le, String.eqb_eq. split.
  - intros [_ H]. destruct (drop_is_suffix (String.length s - String.length suf) s)
      as [p Hp]. exists p. now rewrite H in Hp.
  - intros [p ->]. rewrite string_length_app. split; [lia|].
    replace (String.length p + String.length suf - String.length suf)%nat
      with (String.length p) by lia.
    apply drop_app_length.
Qed.

Lemma is_authorized_spec (name : string) :
  is_authorized name = true <->
  exists ext, ext ∈ AUTHORIZED_IMAGE_FORMATS /\ exists stem, Str.lower name = stem +:+ ext.
Proof.
  unfold is_authorized, Str.endswith_any. rewrite existsb_exists. split.
  - intros (ext & Hin & H). exists ext. split; [now apply list_elem_of_In|].
    now apply endswith_spec.
  - intros (ext & Hin & H). exists ext. split; [now apply list_elem_of_In|].
    now apply endswith_spec.
Qed.

(** ** Reference formatting *)

Lemma truthy_Some (a : string) : a <> EmptyString -> Str.truthy (Some a) = true.
Proof. intros H. simpl. now apply negb_true_iff, String.eqb_neq. Qed.

(** C7 (amended). [to_reference] renders, in this order: the artist and ", "
    when the artist is set and not empty; the title and ", "; the production
    site and ", " when the artist is unset or empty; then the year, the
    technique and the dimensions, each followed by ", "; then the
    conservation site. The production site comes after the title, not
    before it. *)
Theorem to_reference_order (i : CollectionImage) (t y te d cs : string) :
  title i = Some t -> year i = Some y -> technique i = Some te ->
  dimensions i = Some d -> conservation_site i = Some cs ->
  (forall a, artist i = Some a -> a <> EmptyString ->
     to_reference i
     = OK (a +:+ ", " +:+ t +:+ ", " +:+ y +:+ ", " +:+ te +:+ ", " +:+ d +:+ ", " +:+ cs))
  /\ (forall p, Str.truthy (artist i) = false -> production_site i = Some p ->
     to_reference i
     = OK (t +:+ ", " +:+ p +:+ ", " +:+ y +:+ ", " +:+ te +:+ ", " +:+ d +:+ ", " +:+ cs)).
Proof.
  intros Ht Hy Hte Hd Hcs. unfold to_reference.
  rewrite Ht, Hy, Hte, Hd, Hcs. split.
  - intros a Ha Hne. rewrite Ha, (truthy_Some a Hne). cbn [negb Str.add Str.fmt].
    f_equal. now rewrite string_app_nil_l, !string_app_assoc.
  - intros p Hfalse Hp. rewrite Hfalse, Hp. cbn [negb Str.add Str.fmt].
    f_equal. now rewrite string_app_nil_l, !string_app_assoc.
Qed.

(** The rendering of the specification's example, from [to_reference_order]. *)
Lemma to_reference_order_witness :
  to_reference (mkImage "wl.png" (Some "Water Lilies") (Some "Monet") (Some "1919")
                  (Some "Oil on canvas") (Some "MoMA") None (Some "100x100cm"))
  = OK "Monet, Water Lilies, 1919, Oil on canvas, 100x100cm, MoMA".
Proof.
  refine (proj1 (to_reference_order
            (mkImage "wl.png" (Some "Water Lilies") (Some "Monet") (Some "1919")
               (Some "Oil on canvas") (Some "MoMA") None (Some "100x100cm"))
            "Water Lilies" "1919" "Oil on canvas" "100x100cm" "MoMA"
            eq_refl eq_refl eq_refl eq_refl eq_refl) "Monet" eq_refl _).
  discriminate.
Defined.

(** C7, as stated, fails: with no artist and a production site, the code
    renders the title first and the production site after it. *)
Lemma to_reference_production_site_after_title :
  let i := mkImage "f.png" (Some "Annunciation") None (Some "1440") (Some "Fresco")
             (Some "San Marco") (Some "Florence") (Some "230x321cm") in
  to_reference i = OK "Annunciation, Florence, 1440, Fresco, 230x321cm, San Marco"
  /\ to_reference_spec i = "Florence, Annunciation, 1440, Fresco, 230x321cm, San Marco"
  /\ to_reference i <> OK (to_reference_spec i).
Proof. cbv zeta. repeat split. discriminate. Qed.

(** C10. [to_reference] raises a type error when the title, the year, the
    technique or the dimensions is unset, and when the artist and the
    production site are both unset (so on every bare image); when the
    conservation site alone is unset it returns a string that ends in
    "None". *)
Theorem to_reference_partial (i : CollectionImage) :
  (title i = None \/ year i = None \/ technique i = None \/ dimensions i = None ->
   to_reference i = Raise TypeError)
  /\ (artist i = None -> production_site i = None -> to_reference i = Raise TypeError)
  /\ (forall f, to_reference (bare f) = Raise TypeError)
  /\ (forall t a y te ps d,
        title i = Some t -> artist i = Some a -> year i = Some y ->
        technique i = Some te -> production_site i = Some ps ->
        dimensions i = Some d -> conservation_site i = None ->
        exists s, to_reference i = OK (s +:+ "None")).
Proof.
  destruct i as [f t a y te cs ps d]; cbn [title artist year technique
    conservation_site production_site dimensions filename].
  repeat split.
  - unfold to_reference; cbn [title artist year technique
      conservation_site production_site dimensions].
    intros H.
    destruct (Str.truthy a) eqn:Ha; [destruct a; [|discriminate]|];
      destruct t, ps, y, te, d; cbn; try reflexivity;
      destruct H as [H|[H|[H|H]]]; discriminate.
  - intros -> ->. unfold to_reference; cbn. now destruct t.
  - intros t' a' y' te' ps' d' -> -> -> -> -> -> ->.
    unfold to_reference; cbn [title artist year technique
      conservation_site production_site dimensions Str.add Str.fmt].
    destruct (Str.truthy (Some a')); cbn [negb];
      rewrite ?string_app_nil_l, <- !string_app_assoc; eexists; reflexivity.
Qed.

(** [to_reference_partial] on three images: a bare one, one without artist
    and production site, one without conservation site. *)
Lemma to_reference_partial_witness :
  to_reference (bare "a.png") = Raise TypeError
  /\ to_reference (mkImage "a.png" (Some "T") None (Some "1919") (Some "Oil")
                     (Some "MoMA") None (Some "1x1cm")) = Raise TypeError
  /\ exists s, to_reference (mkImage "a.png" (Some "T") (Some "Monet") (Some "1919")
                     (Some "Oil") None (Some "Paris") (Some "1x1cm")) = OK (s +:+ "None").
Proof.
  split; [|split].
  - apply (proj1 (to_reference_partial (bare "a.png"))). left. reflexivity.
  - apply (proj1 (proj2 (to_reference_partial
             (mkImage "a.png" (Some "T") None (Some "1919") (Some "Oil")
                (Some "MoMA") None (Some "1x1cm"))))); reflexivity.
  - apply (proj2 (proj2 (proj2 (to_reference_partial
             (mkImage "a.png" (Some "T") (Some "Monet") (Some "1919")
                (Some "Oil") None (Some "Paris") (Some "1x1cm")))))
             "T" "Monet" "1919" "Oil" "Paris" "1x1cm"); reflexivity.
Defined.

(** ** Reconciliation: the loop of [__check_files] *)

Lemma image_in_bare (f : string) (coll : list CollectionImage) :
  image_in (bare f) coll = true <-> f ∈ filenames coll.
Proof.
  unfold image_in, image_eq, filenames.
  induction coll as [|e coll IH]; simpl.
  - rewrite elem_of_nil. split; [discriminate | tauto].
  - rewrite orb_true_iff, String.eqb_eq, IH, elem_of_cons.
    split; (intros [H|H]; [left; now symmetry | now right]).
Qed.

Lemma image_in_bare_false (f : string) (coll : list CollectionImage) :
  image_in (bare f) coll = false <-> f ∉ filenames coll.
Proof.
  rewrite <- image_in_bare. destruct (image_in (bare f) coll); split;
    congruence || tauto.
Qed.

Lemma check_file_known (coll : list CollectionImage) (f : string) :
  is_authorized f = false \/ f ∈ filenames coll -> check_file coll f = coll.
Proof.
  unfold check_file. intros [H|H].
  - now rewrite H.
  - apply image_in_bare in H. rewrite H. now destruct (is_authorized f).
Qed.

Lemma check_file_new (coll : list CollectionImage) (f : string) :
  is_authorized f = true -> f ∉ filenames coll ->
  check_file coll f = coll ++ [bare f].
Proof.
  unfold check_file. intros Ha H. apply image_in_bare_false in H.
  now rewrite Ha, H.
Qed.

Lemma check_file_cases (coll : list CollectionImage) (f : string) :
  (is_authorized f = true /\ f ∉ filenames coll)
  \/ (is_authorized f = false \/ f ∈ filenames coll).
Proof.
  destruct (is_authorized f); [|now right; left].
  destruct (decide (f ∈ filenames coll)); [right; now right | now left].
Qed.

Lemma filenames_app (l k : list CollectionImage) :
  filenames (l ++ k) = filenames l ++ filenames k.
Proof. apply fmap_app. Qed.

Lemma filenames_bare (news : list string) : filenames (bare <$> news) = news.
Proof.
  unfold filenames. induction news as [|f news IH]; [reflexivity|].
  cbn. now rewrite IH.
Qed.

(* What one run of the loop appends. *)
Lemma check_files_loop_discovers (listing : list string) (coll : list CollectionImage) :
  exists news : list string,
    check_files_loop listing coll = coll ++ (bare <$> news)
    /\ NoDup news
    /\ (forall f, f ∈ news <->
                  f ∈ listing /\ is_authorized f = true /\ f ∉ filenames coll)
    /\ sublist news listing.
Proof.
  revert coll. induction listing as [|f rest IH]; intros coll.
  - exists []. cbn. rewrite app_nil_r. split; [reflexivity|].
    split; [constructor|]. split; [|constructor].
    intros g. split.
    + now intros H%elem_of_nil.
    + now intros [H%elem_of_nil _].
  - cbn [check_files_loop fold_left]. fold (check_files_loop rest (check_file coll f)).
    destruct (check_file_cases coll f) as [[Ha Hnew]|Hknown].
    + rewrite (check_file_new _ _ Ha Hnew).
      destruct (IH (coll ++ [bare f])) as (news & Heq & Hnd & Hmem & Hsub).
      assert (Hf : f ∈ filenames (coll ++ [bare f])).
      { rewrite filenames_app, elem_of_app. right. apply list_elem_of_singleton.
        reflexivity. }
      exists (f :: news). split; [|split; [|split]].
      * rewrite Heq, <- app_assoc. reflexivity.
      * apply NoDup_cons. split; [|exact Hnd].
        intros Hin. now apply Hmem in Hin as (_ & _ & Hnot).
      * intros g. rewrite !elem_of_cons, Hmem, filenames_app, elem_of_app. split.
        -- intros [->|(Hin & Hauth & Hnot)]; [now auto|].
           split; [now right|]. split; [exact Hauth|]. intros Hg. apply Hnot. now left.
        -- intros ([->|Hin] & Hauth & Hnot); [now left|].
           destruct (decide (g = f)) as [->|Hne]; [now left|right].
           split; [exact Hin|]. split; [exact Hauth|].
           intros [Hg|Hg]; [contradiction|].
           apply list_elem_of_singleton in Hg. contradiction.
      * now constructor.
    + rewrite (check_file_known _ _ Hknown).
      destruct (IH coll) as (news & Heq & Hnd & Hmem & Hsub).
      exists news. split; [exact Heq|]. split; [exact Hnd|]. split; [|now constructor].
      intros g. rewrite Hmem, elem_of_cons. split.
      * intros (Hin & Hauth & Hnot). auto.
      * intros ([->|Hin] & Hauth & Hnot); [|now auto].
        destruct Hknown as [Hk|Hk]; [congruence | contradiction].
Qed.

Lemma check_files_loop_filenames (listing : list string) (coll : list CollectionImage)
    (f : string) :
  f ∈ filenames (check_files_loop listing coll) <->
  f ∈ filenames coll \/ (f ∈ listing /\ is_authorized f = true).
Proof.
  destruct (check_files_loop_discovers listing coll) as (news & -> & _ & Hmem & _).
  rewrite filenames_app, filenames_bare, elem_of_app, Hmem. split.
  - intros [H|(H1 & H2 & _)]; [now left | now right].
  - intros [H|[H1 H2]]; [now left|].
    destruct (decide (f ∈ filenames coll)); [now left | now right].
Qed.

(* A collection that already knows every authorized name of the listing is
   left as it is. *)
Lemma check_files_loop_fixed (listing : list string) (coll : list CollectionImage) :
  (forall f, f ∈ listing -> is_authorized f = true -> f ∈ filenames coll) ->
  check_files_loop listing coll = coll.
Proof.
  induction listing as [|f rest IH]; intros H; [reflexivity|].
  cbn [check_files_loop fold_left]. fold (check_files_loop rest (check_file coll f)).
  rewrite check_file_known.
  - apply IH. intros g Hg. apply H, elem_of_cons. now right.
  - destruct (is_authorized f) eqn:Ha; [right | now left].
    apply H; [apply elem_of_cons; now left | exact Ha].
Qed.

(* The loop keeps the filenames distinct when they are and the listing has
   them. *)
Lemma check_files_loop_NoDup (listing : list string) (coll : list CollectionImage) :
  NoDup (filenames coll) -> NoDup (filenames (check_files_loop listing coll)).
Proof.
  intros Hnd.
  destruct (check_files_loop_discovers listing coll) as (news & -> & Hnews & Hmem & _).
  rewrite filenames_app, filenames_bare. apply NoDup_app. repeat split; try assumption.
  intros f Hf Hin. now apply Hmem in Hin as (_ & _ & Hnot).
Qed.

(** C2 (amended). Reconciliation returns the existing images first,
    unchanged in content and order, none removed, and appends one bare
    image for each authorized name of the directory listing that no
    existing image has, in the order in which the listing enumerates them
    (which need not be the lexicographic order). *)
Theorem check_files_loop_appends (listing : list string) (coll : list CollectionImage) :
  exists news : list string,
    check_files_loop listing coll = coll ++ (bare <$> news)
    /\ take (length coll) (check_files_loop listing coll) = coll
    /\ (forall i, i ∈ bare <$> news ->
                  i = bare (filename i) /\ title i = None /\ artist i = None
                  /\ year i = None /\ technique i = None
                  /\ conservation_site i = None /\ production_site i = None
                  /\ dimensions i = None)
    /\ NoDup news
    /\ (forall f, f ∈ news <->
                  f ∈ listing /\ is_authorized f = true /\ f ∉ filenames coll)
    /\ sublist news listing.
Proof.
  destruct (check_files_loop_discovers listing coll) as (news & Heq & Hrest).
  exists news. split; [exact Heq|]. split; [|split; [|exact Hrest]].
  - rewrite Heq. apply take_app_length.
  - intros i Hi. apply list_elem_of_fmap in Hi as (f & -> & _).
    repeat split.
Qed.

(** C2, as stated, fails: a directory enumerated as b.png, a.png yields the
    new images in that order, which is not the lexicographic one. *)
Lemma check_files_loop_not_lexicographic :
  check_files_loop ["b.png"; "a.png"] [] = [bare "b.png"; bare "a.png"]
  /\ ~ Sorted String.le (filenames (check_files_loop ["b.png"; "a.png"] [])).
Proof.
  split; [reflexivity|].
  intros H. change (Sorted String.le ["b.png"; "a.png"]) in H.
  inversion H as [|? ? _ Hhd]; subst. inversion Hhd as [|? ? Hle]; subst.
  exact Hle.
Qed.

(** C4. Reconciliation is idempotent: running the loop again on its own
    result, against the same listing, changes nothing; so [__check_files]
    run twice on the same disk returns what one run returns. *)
Theorem check_files_idempotent :
  (forall (listing : list string) (coll : list CollectionImage),
      check_files_loop listing (check_files_loop listing coll)
      = check_files_loop listing coll)
  /\ (forall (c : Collection) (fs : filesystem),
        bind (check_files c) check_files fs = check_files c fs).
Proof.
  assert (Hloop : forall listing coll,
             check_files_loop listing (check_files_loop listing coll)
             = check_files_loop listing coll).
  { intros listing coll. apply check_files_loop_fixed. intros f Hin Ha.
    apply check_files_loop_filenames. now right. }
  split; [exact Hloop|].
  intros c fs. unfold check_files, bind, ret, os_listdir.
  destruct (fs !! work_directory c) as [[content|entries]|] eqn:Hdir;
    try reflexivity.
  cbn [work_directory coll_title collection]. rewrite Hdir.
  now rewrite Hloop.
Qed.

(** ** JSON text: [Json.loads] reads back what [Json.dumps] writes *)

Lemma blank_nil : blank EmptyString.
Proof. intros s. reflexivity. Qed.

Lemma blank_spaces (n : nat) : blank (Json.spaces n).
Proof. intros s. induction n as [|n IH]; [reflexivity | exact IH]. Qed.

Lemma blank_break (indent : option nat) (level : nat) : blank (Json.break indent level).
Proof.
  destruct indent as [k|]; [|apply blank_nil].
  intros s. exact (blank_spaces (k * level) s).
Qed.

Lemma blank_gap (indent : option nat) (level : nat) : blank (Json.gap indent level).
Proof.
  destruct indent as [k|]; [exact (blank_break (Some k) level)|].
  intros s. reflexivity.
Qed.

Lemma after_hit (c : ascii) (w r : string) :
  blank w -> Json.is_ws c = false -> Json.after c (w +:+ String c r) = Some r.
Proof.
  intros Hw Hc. unfold Json.after. rewrite Hw. cbn [Json.skip_ws]. rewrite Hc.
  now rewrite Ascii.eqb_refl.
Qed.

Lemma after_miss (c x : ascii) (w r : string) :
  blank w -> Json.is_ws x = false -> x <> c -> Json.after c (w +:+ String x r) = None.
Proof.
  intros Hw Hx Hne. unfold Json.after. rewrite Hw. cbn [Json.skip_ws]. rewrite Hx.
  apply Ascii.eqb_neq in Hne. now rewrite Hne.
Qed.

Lemma parse_value_blank (fuel : nat) (w s : string) :
  blank w -> Json.parse_value fuel (w +:+ s) = Json.parse_value fuel s.
Proof.
  intros Hw. destruct fuel as [|fuel]; [reflexivity|].
  cbn [Json.parse_value]. now rewrite Hw.
Qed.

Lemma parse_chars_escape (c : ascii) (fuel : nat) (rest : string) :
  Json.parse_chars (S fuel) (Json.escape c +:+ rest)
  = match Json.parse_chars fuel rest with
    | Some (t, r) => Some (String c t, r)
    | None => None
    end.
Proof.
  destruct c as [[] [] [] [] [] [] [] []]; reflexivity.
Qed.

Lemma escape_nonempty (c : ascii) : 1 <= String.length (Json.escape c).
Proof.
  destruct c as [[] [] [] [] [] [] [] []]; vm_compute; lia.
Qed.

Lemma parse_chars_escape_all (s : string) (fuel : nat) (rest : string) :
  String.length s < fuel ->
  Json.parse_chars fuel (Json.escape_all s +:+ String Json.dquote rest) = Some (s, rest).
Proof.
  revert fuel. induction s as [|c s IH]; intros fuel Hlen.
  - destruct fuel as [|fuel]; [cbn in Hlen; lia | reflexivity].
  - destruct fuel as [|fuel]; [cbn in Hlen; lia|].
    cbn [Json.escape_all]. rewrite string_app_assoc, parse_chars_escape, IH.
    + reflexivity.
    + cbn in Hlen. lia.
Qed.

Lemma escape_all_length (s : string) :
  String.length s <= String.length (Json.escape_all s).
Proof.
  induction s as [|c s IH]; [reflexivity|].
  cbn [Json.escape_all String.length]. rewrite string_length_app.
  pose proof (escape_nonempty c). lia.
Qed.

Lemma parse_chars_quoted (s rest : string) :
  let body := Json.escape_all s +:+ String Json.dquote rest in
  Json.parse_chars (S (String.length body)) body = Some (s, rest).
Proof.
  cbv zeta. apply parse_chars_escape_all. rewrite string_length_app.
  pose proof (escape_all_length s). lia.
Qed.

Lemma quoted_app (s rest : string) :
  Json.quoted s +:+ rest
  = String Json.dquote (Json.escape_all s +:+ String Json.dquote rest).
Proof.
  unfold Json.quoted, Json.chr. rewrite !string_app_cons, string_app_nil_l.
  now rewrite string_app_assoc, string_app_cons, string_app_nil_l.
Qed.

Lemma digit_value_hex (d : nat) : d < 10 -> Json.digit_value (Json.hex_digit d) = Some d.
Proof. intros H. do 10 (destruct d as [|d]; [reflexivity|]). lia. Qed.

Lemma digits_app (fuel n : nat) (acc rest : string) :
  Json.digits fuel n acc +:+ rest = Json.digits fuel n (acc +:+ rest).
Proof.
  revert n acc. induction fuel as [|fuel IH]; intros n acc; [reflexivity|].
  cbn [Json.digits]. destruct (Nat.ltb n 10); [reflexivity|]. now rewrite IH.
Qed.

Lemma parse_digits_digits (fuel n : nat) (acc : string) (a : nat) :
  n < fuel ->
  exists k, Json.parse_digits (Json.digits fuel n acc) a
            = Json.parse_digits acc (k * a + n).
Proof.
  revert n acc a. induction fuel as [|fuel IH]; intros n acc a Hn; [lia|].
  cbn [Json.digits]. destruct (Nat.ltb n 10) eqn:Hlt.
  - apply Nat.ltb_lt in Hlt. exists 10. cbn [Json.parse_digits].
    rewrite Nat.mod_small by exact Hlt. rewrite digit_value_hex by exact Hlt.
    f_equal.
  - apply Nat.ltb_ge in Hlt.
    assert (Hdiv : n / 10 < fuel).
    { pose proof (Nat.div_lt n 10). lia. }
    destruct (IH (n / 10) (String (Json.hex_digit (n mod 10)) acc) a Hdiv) as [k Hk].
    exists (10 * k). rewrite Hk. cbn [Json.parse_digits].
    rewrite digit_value_hex by (apply Nat.mod_upper_bound; lia).
    f_equal. pose proof (Nat.div_mod_eq n 10). lia.
Qed.

Lemma digits_head (fuel n : nat) (acc : string) :
  n < fuel ->
  exists d t, Json.digits fuel n acc = String (Json.hex_digit d) t
              /\ d < 10 /\ (d = 0 -> n = 0 /\ t = acc).
Proof.
  revert n acc. induction fuel as [|fuel IH]; intros n acc Hn; [lia|].
  cbn [Json.digits]. destruct (Nat.ltb n 10) eqn:Hlt.
  - apply Nat.ltb_lt in Hlt. exists (n mod 10), acc.
    rewrite Nat.mod_small by exact Hlt. auto.
  - apply Nat.ltb_ge in Hlt.
    assert (Hdiv : n / 10 < fuel).
    { pose proof (Nat.div_lt n 10). lia. }
    destruct (IH (n / 10) (String (Json.hex_digit (n mod 10)) acc) Hdiv)
      as (d & t & Heq & Hd & H0).
    exists d, t. split; [exact Heq|]. split; [exact Hd|].
    intros ->. destruct (H0 eq_refl) as [Hz _].
    pose proof (Nat.div_mod_eq n 10). pose proof (Nat.mod_upper_bound n 10). lia.
Qed.

Lemma parse_digits_stop (rest : string) (n : nat) :
  delimited rest = true -> Json.parse_digits rest n = (n, rest).
Proof.
  destruct rest as [|c rest]; [reflexivity|]. cbn [delimited Json.parse_digits].
  now destruct (Json.digit_value c).
Qed.

Lemma delimited_no_fraction (rest : string) :
  delimited rest = true ->
  Str.startswith rest "." || Str.startswith rest "e" || Str.startswith rest "E" = false.
Proof.
  destruct rest as [|c rest]; [reflexivity|]. cbn [delimited Str.startswith].
  destruct (Json.digit_value c); [discriminate|].
  rewrite !andb_true_r, negb_true_iff.
  rewrite (Ascii.eqb_sym "." c), (Ascii.eqb_sym "e" c), (Ascii.eqb_sym "E" c).
  trivial.
Qed.

Lemma parse_nat_digits (n : nat) (rest : string) :
  delimited rest = true ->
  Json.parse_nat (Json.digits (S n) n EmptyString +:+ rest) = Some (n, rest).
Proof.
  intros Hrest. rewrite digits_app, string_app_nil_l.
  destruct (digits_head (S n) n rest (Nat.lt_succ_diag_r n)) as (d & t & Heq & Hd & H0).
  destruct (parse_digits_digits (S n) n rest 0 (Nat.lt_succ_diag_r n)) as [k Hk].
  rewrite Nat.mul_0_r, Nat.add_0_l, (parse_digits_stop _ _ Hrest) in Hk.
  unfold Json.parse_nat. rewrite Heq, digit_value_hex by exact Hd.
  rewrite <- Heq, Hk, (delimited_no_fraction _ Hrest).
  destruct (Nat.eqb d 0) eqn:Hz; [|reflexivity].
  apply Nat.eqb_eq in Hz. destruct (H0 Hz) as [_ ->].
  now rewrite String.eqb_refl.
Qed.

Lemma dumps_arr_cons indent level v vs rest :
  Json.dumps_at indent level (JArr (v :: vs)) +:+ rest
  = String "[" (Json.break indent (S level)
                +:+ items_text indent (S level) (v :: vs)
                +:+ Json.break indent level +:+ String "]" rest).
Proof.
  change (Json.dumps_at indent level (JArr (v :: vs)))
    with ("[" +:+ Json.break indent (S level)
          +:+ items_text indent (S level) (v :: vs)
          +:+ Json.break indent level +:+ "]").
  now rewrite !string_app_assoc.
Qed.

Lemma dumps_obj_cons indent level kv kvs rest :
  Json.dumps_at indent level (JObj (kv :: kvs)) +:+ rest
  = String "{" (Json.break indent (S level)
                +:+ members_text indent (S level) (kv :: kvs)
                +:+ Json.break indent level +:+ String "}" rest).
Proof.
  change (Json.dumps_at indent level (JObj (kv :: kvs)))
    with ("{" +:+ Json.break indent (S level)
          +:+ members_text indent (S level) (kv :: kvs)
          +:+ Json.break indent level +:+ "}").
  now rewrite !string_app_assoc.
Qed.

Lemma hex_digit_start (d : nat) (c : ascii) :
  d < 10 -> c = Json.hex_digit d ->
  Json.is_ws c = false /\ c <> "]"%char /\ c <> "}"%char.
Proof.
  intros H ->. do 10 (destruct d as [|d]; [repeat split; discriminate|]). lia.
Qed.

Lemma dumps_at_head indent level j :
  exists c r, Json.dumps_at indent level j = String c r
              /\ Json.is_ws c = false /\ c <> "]"%char /\ c <> "}"%char.
Proof.
  destruct j as [|b|z|s|items|members].
  - exists "n"%char, "ull". repeat split; discriminate.
  - destruct b; eexists _, _; (split; [reflexivity|]); repeat split; discriminate.
  - cbn [Json.dumps_at]. unfold Json.int_text.
    destruct (Z.ltb z 0).
    + eexists _, _. split; [reflexivity|]. repeat split; discriminate.
    + rewrite string_app_nil_l.
      destruct (digits_head (S (Z.to_nat (Z.abs z))) (Z.to_nat (Z.abs z)) EmptyString
                  (Nat.lt_succ_diag_r _)) as (d & t & -> & Hd & _).
      exists (Json.hex_digit d), t. split; [reflexivity|].
      now apply (hex_digit_start d).
  - eexists _, _. split; [reflexivity|]. repeat split; discriminate.
  - destruct items; eexists _, _; (split; [reflexivity|]); repeat split; discriminate.
  - destruct members; eexists _, _; (split; [reflexivity|]); repeat split; discriminate.
Qed.

Lemma items_text_head indent level v vs tail :
  exists c r, items_text indent level (v :: vs) +:+ tail = String c r
              /\ Json.is_ws c = false /\ c <> "]"%char.
Proof.
  destruct (dumps_at_head indent level v) as (c & r & Heq & Hws & Hc & _).
  unfold items_text. cbn [map Json.join]. rewrite Heq.
  destruct (map _ vs); eexists c, _; (split; [|now split]);
    rewrite ?string_app_assoc, string_app_cons; reflexivity.
Qed.

Lemma members_text_head indent level kv kvs tail :
  exists r, members_text indent level (kv :: kvs) +:+ tail = String Json.dquote r.
Proof.
  unfold members_text. cbn [map Json.join]. destruct kv as [k v].
  destruct (map _ kvs); eexists; unfold member_text;
    rewrite ?string_app_assoc, quoted_app; reflexivity.
Qed.

Lemma parse_value_quote fuel body :
  Json.parse_value (S fuel) (String Json.dquote body)
  = match Json.parse_chars (S (String.length body)) body with
    | Some (t, r) => Some (JStr t, r)
    | None => None
    end.
Proof. reflexivity. Qed.

Lemma parse_value_bracket fuel text :
  Json.parse_value (S fuel) (String "[" text)
  = match Json.after "]" text with
    | Some r => Some (JArr [], r)
    | None =>
        match Json.parse_items fuel text with
        | Some (items, r) => Some (JArr items, r)
        | None => None
        end
    end.
Proof. reflexivity. Qed.

Lemma parse_value_brace fuel text :
  Json.parse_value (S fuel) (String "{" text)
  = match Json.after "}" text with
    | Some r => Some (JObj [], r)
    | None =>
        match Json.parse_members fuel text with
        | Some (members, r) => Some (JObj members, r)
        | None => None
        end
    end.
Proof. reflexivity. Qed.

Lemma parse_value_minus fuel text :
  Json.parse_value (S fuel) (String "-" text)
  = match Json.parse_nat text with
    | Some (n, r) => Some (JNum (- Z.of_nat n), r)
    | None => None
    end.
Proof. reflexivity. Qed.

Lemma parse_value_digit fuel d text :
  d < 10 ->
  Json.parse_value (S fuel) (String (Json.hex_digit d) text)
  = match Json.parse_nat (String (Json.hex_digit d) text) with
    | Some (n, r) => Some (JNum (Z.of_nat n), r)
    | None => None
    end.
Proof. intros H. do 10 (destruct d as [|d]; [reflexivity|]). lia. Qed.

Lemma parse_items_S fuel s :
  Json.parse_items (S fuel) s
  = match Json.parse_value fuel s with
    | Some (v, r) =>
        match Json.after "," r with
        | Some r' =>
            match Json.parse_items fuel r' with
            | Some (vs, r'') => Some (v :: vs, r'')
            | None => None
            end
        | None =>
            match Json.after "]" r with
            | Some r' => Some ([v], r')
            | None => None
            end
        end
    | None => None
    end.
Proof. reflexivity. Qed.

Lemma parse_members_S fuel s :
  Json.parse_members (S fuel) s
  = match Json.after Json.dquote s with
    | Some s1 =>
        match Json.parse_chars (S (String.length s1)) s1 with
        | Some (k, s2) =>
            match Json.after ":" s2 with
            | Some s3 =>
                match Json.parse_value fuel s3 with
                | Some (v, r) =>
                    match Json.after "," r with
                    | Some r' =>
                        match Json.parse_members fuel r' with
                        | Some (kvs, r'') => Some ((k, v) :: kvs, r'')
                        | None => None
                        end
                    | None =>
                        match Json.after "}" r with
                        | Some r' => Some ([(k, v)], r')
                        | None => None
                        end
                    end
                | None => None
                end
            | None => None
            end
        | None => None
        end
    | None => None
    end.
Proof. reflexivity. Qed.

Lemma delimited_close indent level (c : ascii) rest :
  c = "]"%char \/ c = "}"%char ->
  delimited (Json.break indent level +:+ String c rest) = true.
Proof. intros [-> | ->]; destruct indent; reflexivity. Qed.

Lemma parse_num fuel z rest :
  delimited rest = true ->
  Json.parse_value (S fuel) (Json.int_text z +:+ rest) = Some (JNum z, rest).
Proof.
  intros Hrest. unfold Json.int_text. set (n := Z.to_nat (Z.abs z)).
  destruct (Z.ltb z 0) eqn:Hneg.
  - rewrite string_app_assoc. change ("-" +:+ ?x) with (String "-" x).
    rewrite parse_value_minus, (parse_nat_digits n rest Hrest).
    apply Z.ltb_lt in Hneg. do 2 f_equal. f_equal. unfold n. lia.
  - rewrite string_app_nil_l.
    destruct (digits_head (S n) n EmptyString (Nat.lt_succ_diag_r n))
      as (d & t & Heq & Hd & _).
    pose proof (parse_nat_digits n rest Hrest) as Hnat. rewrite Heq in *.
    rewrite string_app_cons in *. rewrite (parse_value_digit _ _ _ Hd), Hnat.
    apply Z.ltb_ge in Hneg. do 2 f_equal. f_equal. unfold n. lia.
Qed.

Lemma reads_values_step fuel :
  reads_values fuel -> reads_items fuel -> reads_members fuel -> reads_values (S fuel).
Proof.
  intros _ HI HM j indent level rest Hsize Hrest.
  destruct j as [|b|z|s|items|members].
  - reflexivity.
  - destruct b; reflexivity.
  - now apply parse_num.
  - cbn [Json.dumps_at]. rewrite quoted_app, parse_value_quote.
    now rewrite parse_chars_quoted.
  - destruct items as [|v vs]; [reflexivity|].
    rewrite dumps_arr_cons, parse_value_bracket.
    destruct (items_text_head indent (S level) v vs
                (Json.break indent level +:+ String "]" rest))
      as (c & r & Heq & Hws & Hc).
    rewrite Heq, (after_miss _ _ _ _ (blank_break indent (S level)) Hws Hc), <- Heq.
    rewrite HI; [reflexivity | discriminate | apply blank_break |].
    cbn [json_size] in Hsize. unfold sizes. lia.
  - destruct members as [|kv kvs]; [reflexivity|].
    rewrite dumps_obj_cons, parse_value_brace.
    destruct (members_text_head indent (S level) kv kvs
                (Json.break indent level +:+ String "}" rest)) as (r & Heq).
    rewrite Heq, (after_miss _ _ _ _ (blank_break indent (S level))), <- Heq;
      [|reflexivity|discriminate].
    rewrite HM; [reflexivity | discriminate | apply blank_break |].
    cbn [json_size] in Hsize. unfold member_sizes. lia.
Qed.

Lemma items_text_cons indent level v v2 vs :
  items_text indent level (v :: v2 :: vs)
  = Json.dumps_at indent level v
    +:+ String "," (Json.gap indent level +:+ items_text indent level (v2 :: vs)).
Proof. reflexivity. Qed.

Lemma members_text_cons indent level kv kv2 kvs :
  members_text indent level (kv :: kv2 :: kvs)
  = member_text indent level kv
    +:+ String "," (Json.gap indent level +:+ members_text indent level (kv2 :: kvs)).
Proof. reflexivity. Qed.

Lemma after_comma text : Json.after "," (String "," text) = Some text.
Proof. reflexivity. Qed.

Lemma after_colon text : Json.after ":" (String ":" text) = Some text.
Proof. reflexivity. Qed.

Lemma blank_space : blank " ".
Proof. intros s. reflexivity. Qed.

Lemma sizes_cons v vs : sizes (v :: vs) = S (json_size v) + sizes vs.
Proof. reflexivity. Qed.

Lemma member_sizes_cons k v kvs :
  member_sizes ((k, v) :: kvs) = S (json_size v) + member_sizes kvs.
Proof. reflexivity. Qed.

Lemma reads_items_step fuel :
  reads_values fuel -> reads_items fuel -> reads_items (S fuel).
Proof.
  intros HV HI items indent level w rest Hne Hw Hsize.
  destruct items as [|v vs]; [contradiction|]. clear Hne.
  rewrite parse_items_S, parse_value_blank by exact Hw.
  rewrite sizes_cons in Hsize.
  destruct vs as [|v2 vs].
  - unfold items_text. cbn [map Json.join].
    rewrite HV; [|lia|apply delimited_close; now left].
    rewrite (after_miss "," "]"), after_hit;
      [reflexivity | apply blank_break | reflexivity
      | apply blank_break | reflexivity | discriminate].
  - rewrite items_text_cons, string_app_assoc, string_app_cons.
    rewrite HV; [|lia|reflexivity].
    rewrite after_comma, string_app_assoc.
    rewrite HI; [reflexivity | discriminate | apply blank_gap |].
    lia.
Qed.

Lemma reads_members_step fuel :
  reads_values fuel -> reads_members fuel -> reads_members (S fuel).
Proof.
  intros HV HM members indent level w rest Hne Hw Hsize.
  destruct members as [|[k v] kvs]; [contradiction|]. clear Hne.
  rewrite parse_members_S.
  rewrite member_sizes_cons in Hsize.
  destruct kvs as [|kv2 kvs].
  - unfold members_text. cbn [map Json.join]. unfold member_text.
    rewrite !string_app_assoc, quoted_app.
    rewrite after_hit by (exact Hw || reflexivity).
    rewrite parse_chars_quoted.
    change (": " +:+ ?x) with (String ":" (" " +:+ x)).
    rewrite after_colon, parse_value_blank by apply blank_space.
    rewrite HV; [|lia|apply delimited_close; now right].
    rewrite (after_miss "," "}"), after_hit;
      [reflexivity | apply blank_break | reflexivity
      | apply blank_break | reflexivity | discriminate].
  - rewrite members_text_cons. unfold member_text at 1.
    rewrite !string_app_assoc, quoted_app.
    rewrite after_hit by (exact Hw || reflexivity).
    rewrite parse_chars_quoted.
    change (": " +:+ ?x) with (String ":" (" " +:+ x)).
    rewrite after_colon, parse_value_blank by apply blank_space.
    rewrite string_app_cons.
    rewrite HV; [|lia|reflexivity].
    rewrite after_comma, string_app_assoc.
    rewrite HM; [reflexivity | discriminate | apply blank_gap |].
    lia.
Qed.

Lemma reads_all fuel : reads_values fuel /\ reads_items fuel /\ reads_members fuel.
Proof.
  induction fuel as [|fuel (HV & HI & HM)].
  - split; [|split].
    + intros j indent level rest H. lia.
    + intros items indent level w rest _ _ H. lia.
    + intros members indent level w rest _ _ H. lia.
  - split; [|split].
    + now apply reads_values_step.
    + now apply reads_items_step.
    + now apply reads_members_step.
Qed.

Lemma dumps_at_nonempty indent level j :
  1 <= String.length (Json.dumps_at indent level j).
Proof.
  destruct (dumps_at_head indent level j) as (c & r & -> & _). cbn. lia.
Qed.

Lemma sizes_le_text indent level items :
  (forall v, v ∈ items -> json_size v <= String.length (Json.dumps_at indent level v)) ->
  sizes items <= S (String.length (items_text indent level items)).
Proof.
  induction items as [|v vs IH]; intros H; [cbn; lia|].
  rewrite sizes_cons.
  assert (Hv : json_size v <= String.length (Json.dumps_at indent level v)).
  { apply H, elem_of_cons. now left. }
  destruct vs as [|v2 vs].
  - cbn. lia.
  - rewrite items_text_cons, string_length_app. cbn [String.length].
    rewrite string_length_app.
    assert (Hvs : sizes (v2 :: vs)
                  <= S (String.length (items_text indent level (v2 :: vs)))).
    { apply IH. intros x Hx. apply H, elem_of_cons. now right. }
    lia.
Qed.

Lemma member_sizes_le_text indent level members :
  (forall k v, (k, v) ∈ members ->
               json_size v <= String.length (Json.dumps_at indent level v)) ->
  member_sizes members <= S (String.length (members_text indent level members)).
Proof.
  induction members as [|[k v] kvs IH]; intros H; [cbn; lia|].
  rewrite member_sizes_cons.
  assert (Hv : json_size v <= String.length (member_text indent level (k, v))).
  { unfold member_text. rewrite !string_length_app.
    pose proof (H k v) as Hkv. rewrite elem_of_cons in Hkv.
    specialize (Hkv (or_introl eq_refl)). lia. }
  destruct kvs as [|kv2 kvs].
  - change (member_sizes []) with 0. unfold members_text. cbn [map Json.join]. lia.
  - rewrite members_text_cons, string_length_app. cbn [String.length].
    rewrite string_length_app.
    assert (Hvs : member_sizes (kv2 :: kvs)
                  <= S (String.length (members_text indent level (kv2 :: kvs)))).
    { apply IH. intros k' v' Hx. apply (H k'), elem_of_cons. now right. }
    lia.
Qed.

Lemma size_in_sizes v items : v ∈ items -> S (json_size v) <= sizes items.
Proof.
  induction items as [|x items IH]; intros H; [now apply elem_of_nil in H|].
  rewrite sizes_cons. apply elem_of_cons in H as [->|H]; [lia|].
  specialize (IH H). lia.
Qed.

Lemma size_in_member_sizes k v members :
  (k, v) ∈ members -> S (json_size v) <= member_sizes members.
Proof.
  induction members as [|[k' v'] members IH]; intros H; [now apply elem_of_nil in H|].
  rewrite member_sizes_cons. apply elem_of_cons in H as [Heq|H].
  - injection Heq as -> ->. lia.
  - specialize (IH H). lia.
Qed.

Lemma size_le_text (n : nat) :
  forall j indent level,
    json_size j <= n -> json_size j <= String.length (Json.dumps_at indent level j).
Proof.
  induction n as [|n IH]; intros j indent level Hn.
  - destruct j; cbn in Hn; lia.
  - pose proof (dumps_at_nonempty indent level j) as Hne.
    destruct j as [|b|z|s|items|members]; try (cbn [json_size]; lia); clear Hne.
    + destruct items as [|v vs]; [cbn; lia|].
      change (json_size (JArr (v :: vs))) with (S (sizes (v :: vs))) in *.
      rewrite <- (string_app_nil_r (Json.dumps_at _ _ _)), dumps_arr_cons.
      cbn [String.length]. rewrite !string_length_app. cbn [String.length].
      pose proof (sizes_le_text indent (S level) (v :: vs)) as Hs.
      assert (sizes (v :: vs) <= S (String.length (items_text indent (S level) (v :: vs)))).
      { apply Hs. intros x Hx. apply IH. apply size_in_sizes in Hx. lia. }
      lia.
    + destruct members as [|kv kvs]; [cbn; lia|].
      change (json_size (JObj (kv :: kvs))) with (S (member_sizes (kv :: kvs))) in *.
      rewrite <- (string_app_nil_r (Json.dumps_at _ _ _)), dumps_obj_cons.
      cbn [String.length]. rewrite !string_length_app. cbn [String.length].
      pose proof (member_sizes_le_text indent (S level) (kv :: kvs)) as Hs.
      assert (member_sizes (kv :: kvs)
              <= S (String.length (members_text indent (S level) (kv :: kvs)))).
      { apply Hs. intros k x Hx. apply IH. apply size_in_member_sizes in Hx. lia. }
      lia.
Qed.

(* [json.loads] reads back what [json.dumps] writes. *)
Theorem json_loads_dumps (indent : option nat) (j : json) :
  Json.loads (Json.dumps indent j) = Some j.
Proof.
  unfold Json.loads, Json.dumps.
  destruct (reads_all (2 * String.length (Json.dumps_at indent 0 j) + 2)) as (HV & _ & _).
  specialize (HV j indent 0 EmptyString). rewrite string_app_nil_r in HV.
  rewrite HV; [reflexivity | | reflexivity].
  pose proof (size_le_text (json_size j) j indent 0 (le_n _)). lia.
Qed.

(** ** The sidecar codec *)

Lemma optstr_roundtrip (o : option string) :
  optstr_of_json (json_of_optstr o) = OK o.
Proof. now destruct o. Qed.

Lemma image_roundtrip (i : CollectionImage) :
  image_from_dict (image_to_dict i) = OK i.
Proof.
  destruct i as [f t a y te cs ps d].
  unfold image_to_dict, image_from_dict, optional_field, lookup_member, getitem.
  cbn -[optstr_of_json]. now rewrite !optstr_roundtrip.
Qed.

Lemma images_roundtrip (l : list CollectionImage) :
  comprehension image_from_dict (map image_to_dict l) = OK l.
Proof.
  induction l as [|i l IH]; [reflexivity|].
  cbn [map comprehension]. now rewrite image_roundtrip, IH.
Qed.

Section StoreProperties.

Context `{Lib : PyLib}.

(* Decoding the text that [__write_meta] writes, for a library whose
   [json.loads] reads back the two texts that [json.dumps] writes for the
   collection's document. *)
Lemma decode_formatted_json (c : Collection) (path : string) :
json_loads (json_dumps None (collection_to_dict c)) = Some (collection_to_dict c) ->
json_loads (json_dumps (Some 4) (collection_to_dict c))
  = Some (collection_to_dict c) ->
exists text,
  formatted_json c = OK text
  /\ decode_meta path text = OK (mkCollection path (coll_title c) (collection c)).
Proof.
  intros Hcompact Hindent. exists (json_dumps (Some 4) (collection_to_dict c)).
  unfold formatted_json, to_json, decode_meta. rewrite Hcompact, Hindent.
  split; [reflexivity|].
  unfold collection_to_dict. cbn [getitem List.find fst snd String.eqb Ascii.eqb
    Bool.eqb iterate].
  now rewrite images_roundtrip, optstr_roundtrip.
Qed.

(** ** The disk *)

Lemma os_path_join_meta_neq (path : string) :
  os_path_join path META_FILENAME <> path.
Proof.
  unfold os_path_join, META_FILENAME. cbn [Str.startswith Ascii.eqb Bool.eqb andb].
  intros H. apply (f_equal String.length) in H.
  destruct (String.eqb path "" || Str.endswith path "/");
    rewrite !string_length_app in H; cbn in H; lia.
Qed.

Lemma os_listdir_dir (fs : filesystem) (path : string) (entries : list string) :
  fs !! path = Some (Dir entries) -> os_listdir path fs = (OK entries, fs).
Proof. intros H. unfold os_listdir. now rewrite H. Qed.

Lemma create_file_dir (fs : filesystem) (dir name : string) (entries : list string) :
  fs !! dir = Some (Dir entries) ->
  os_path_join dir name <> dir ->
  exists fs', create_file dir name fs = (OK tt, fs')
              /\ fs' !! dir = Some (Dir (add_entry name entries))
              /\ fs' !! os_path_join dir name = Some (File "").
Proof.
  intros Hdir Hne. unfold create_file. rewrite Hdir. eexists. split; [reflexivity|].
  split.
  - rewrite lookup_insert_ne by exact Hne. apply lookup_insert_eq.
  - apply lookup_insert_eq.
Qed.

(* What a successful [__write_meta] leaves in the sidecar. *)
Lemma write_meta_ok (c : Collection) (fs fs' : filesystem) (r : unit) :
  write_meta c fs = (OK r, fs') ->
  exists text, formatted_json c = OK text
               /\ fs' !! meta_file_path c = Some (File text).
Proof.
  unfold write_meta, bind, of_result, file_write.
  destruct (open_w (work_directory c) META_FILENAME fs) as [[u|e] fs1]; [|discriminate].
  destruct (formatted_json c) as [text|e]; [|discriminate].
  intros H. injection H as _ <-. exists text. split; [reflexivity|].
  apply lookup_insert_eq.
Qed.

Lemma formatted_json_raise (c : Collection) (e : exn) :
  formatted_json c = Raise e -> e = JSONDecodeError.
Proof. unfold formatted_json. destruct (json_loads (to_json c)); congruence. Qed.

(* [__write_meta] into an existing directory does not raise
   [FileNotFoundError]. *)
Lemma write_meta_in_dir (c : Collection) (fs : filesystem) (entries : list string) :
  fs !! work_directory c = Some (Dir entries) ->
  fst (write_meta c fs) <> Raise FileNotFoundError.
Proof.
  intros Hdir. unfold write_meta, bind, of_result, file_write, open_w, create_file.
  destruct (fs !! os_path_join (work_directory c) META_FILENAME) as [[text|es]|];
    rewrite ?Hdir; cbn -[os_path_join]; try discriminate;
    (destruct (formatted_json c) as [a|e] eqn:Hf; cbn -[os_path_join];
     [discriminate | apply formatted_json_raise in Hf; congruence]).
Qed.

Lemma comprehension_raise {A B} (f : A -> result B) (items : list A) (e : exn) :
  comprehension f items = Raise e -> exists x, f x = Raise e.
Proof.
  induction items as [|x items IH]; [discriminate|]. cbn.
  destruct (f x) as [y|e'] eqn:Hx.
  - destruct (comprehension f items) as [ys|e'']; [discriminate|].
    intros H. injection H as ->. now apply IH.
  - intros H. injection H as ->. now exists x.
Qed.

Lemma optional_field_raise (members : list (string * json)) (key : string) (e : exn) :
  optional_field members key = Raise e -> e = OutOfModel.
Proof.
  unfold optional_field. destruct (lookup_member members key) as [[]|];
    cbn; congruence.
Qed.

Lemma image_from_dict_raise (item : json) (e : exn) :
  image_from_dict item = Raise e -> e <> FileNotFoundError.
Proof.
  unfold image_from_dict. destruct item as [| | | |items|members]; try congruence.
  unfold getitem.
  destruct (List.find _ members) as [[k []]|]; cbn; try congruence.
  repeat match goal with
  | |- context [optional_field members ?key] =>
      let H := fresh "H" in
      destruct (optional_field members key) eqn:H;
        [|apply optional_field_raise in H; congruence]
  end.
  discriminate.
Qed.

Lemma decode_meta_raise (path text : string) (e : exn) :
  decode_meta path text = Raise e -> e <> FileNotFoundError.
Proof.
  unfold decode_meta. destruct (json_loads text) as [d|]; [|congruence].
  destruct (getitem d "title") as [jt|e1] eqn:Ht.
  2:{ unfold getitem in Ht. destruct d; try congruence.
      destruct (List.find _ members); congruence. }
  destruct (getitem d "collection") as [jc|e2] eqn:Hc.
  2:{ unfold getitem in Hc. destruct d; try congruence.
      destruct (List.find _ members); congruence. }
  destruct (iterate jc) as [items|e3] eqn:Hi.
  2:{ destruct jc; cbn in Hi; congruence. }
  destruct (comprehension image_from_dict items) as [images|e4] eqn:Hl.
  2:{ apply comprehension_raise in Hl as [x Hx].
      apply image_from_dict_raise in Hx. congruence. }
  destruct jt; cbn; congruence.
Qed.

Lemma decode_meta_work_directory (path text : string) (c : Collection) :
  decode_meta path text = OK c -> work_directory c = path.
Proof.
  unfold decode_meta.
  repeat match goal with
  | |- context [match ?x with _ => _ end] => destruct x; try discriminate
  end; intros H; injection H as <-; reflexivity.
Qed.

(** ** [load] *)

(* Once the sidecar is read or created, the rest of [load] does not raise
   [FileNotFoundError] in an existing directory. *)
Lemma load_tail_in_dir (c : Collection) (fs : filesystem) (entries : list string) :
  fs !! work_directory c = Some (Dir entries) ->
  fst ((let* checked := check_files c in
        do* write_meta checked in
        ret checked) fs) <> Raise FileNotFoundError.
Proof.
  intros Hdir. unfold bind at 1. unfold check_files, bind at 1, ret at 1.
  rewrite (os_listdir_dir _ _ _ Hdir). unfold bind, ret.
  set (checked := mkCollection _ _ _).
  pose proof (write_meta_in_dir checked fs entries Hdir) as Hw.
  destruct (write_meta checked fs) as [[u|e] fs']; cbn in *; congruence.
Qed.

(** C9. [load] raises [FileNotFoundError] when the path does not exist and
    when its listing is empty, and then leaves the disk as it was (no
    sidecar is created); a directory with an entry passes this check:
    where the entries listed exist, [load] does not raise
    [FileNotFoundError]. *)
Theorem load_empty_or_missing (path : string) (fs : filesystem) :
  (fs !! path = None \/ fs !! path = Some (Dir []) ->
   load path fs = (Raise FileNotFoundError, fs))
  /\ (forall name rest,
        fs !! path = Some (Dir (name :: rest)) ->
        (META_FILENAME ∈ name :: rest ->
         is_Some (fs !! os_path_join path META_FILENAME)) ->
        fst (load path fs) <> Raise FileNotFoundError).
Proof.
  split.
  - intros [H|H]; unfold load, bind at 1, os_listdir at 1; now rewrite H.
  - intros name rest Hdir Hlisted. unfold load. unfold bind at 1.
    rewrite (os_listdir_dir _ _ _ Hdir).
    rewrite bool_decide_eq_false_2 by discriminate.
    unfold bind at 1. rewrite (os_listdir_dir _ _ _ Hdir).
    unfold bind at 1.
    destruct (bool_decide (META_FILENAME ∈ name :: rest)) eqn:Hmeta.
    + apply bool_decide_eq_true_1 in Hmeta. apply Hlisted in Hmeta as [nd Hnd].
      unfold load_meta, bind at 1, read_file, of_result. rewrite Hnd.
      destruct nd as [content|es]; [|cbn; discriminate].
      destruct (decode_meta path content) as [c|e] eqn:Hd.
      * apply decode_meta_work_directory in Hd.
        apply (load_tail_in_dir c fs (name :: rest)). now rewrite Hd.
      * apply decode_meta_raise in Hd. cbn. congruence.
    + unfold create_meta, open_a_close, bind at 1.
      destruct (fs !! os_path_join path META_FILENAME) as [[content|es]|] eqn:Hm.
      * unfold ret at 1.
        apply (load_tail_in_dir (mkCollection path _ _) fs (name :: rest) Hdir).
      * cbn. discriminate.
      * destruct (create_file_dir fs path META_FILENAME _ Hdir
                    (os_path_join_meta_neq path)) as (fs' & -> & Hdir' & _).
        unfold ret at 1.
        apply (load_tail_in_dir (mkCollection path _ _) fs' _ Hdir').
Qed.

(** ** [add_image] and [set_collection] *)

(* What a successful [add_image] did. *)
Lemma add_image_ok (source : string) (s s' : Collection * filesystem)
    (img : CollectionImage) :
  add_image source s = (OK img, s') ->
  let src := clean_source source in
  let name := ntpath_basename src in
  is_authorized name = true
  /\ img = bare name
  /\ fst s' = mkCollection (work_directory (fst s)) (coll_title (fst s))
                (collection (fst s) ++ [bare name])
  /\ exists fs1,
       copyfile src (work_directory (fst s)) name (snd s) = (OK tt, fs1)
       /\ save (fst s') fs1 = (OK tt, snd s').
Proof.
  unfold add_image. cbv zeta.
  destruct (is_authorized (ntpath_basename (clean_source source))); cbn [negb];
    [|discriminate].
  unfold bind, get_self, except_SameFileError, on_disk, assign_collection, ret.
  cbn [fst snd].
  destruct (copyfile _ _ _ (snd s)) as [[[]|e] fs1].
  - cbn [fst snd].
    destruct (save _ fs1) as [[[]|e] fs2] eqn:Hsave; [|discriminate].
    intros H. injection H as <- <-. cbn [fst snd]. repeat split.
    exists fs1. split; [reflexivity | exact Hsave].
  - destruct e; discriminate.
Qed.

(** C5. [add_image] and [set_collection] save before they return: when
    either returns, the sidecar of the work directory holds the text that
    [__write_meta] computes for the collection as it then is in memory. *)
Theorem mutations_save :
  (forall source s img s',
      add_image source s = (OK img, s') ->
      exists text, formatted_json (fst s') = OK text
                   /\ snd s' !! meta_file_path (fst s') = Some (File text))
  /\ (forall coll_list s r s',
        set_collection coll_list s = (OK r, s') ->
        collection (fst s') = coll_list
        /\ exists text, formatted_json (fst s') = OK text
                        /\ snd s' !! meta_file_path (fst s') = Some (File text)).
Proof.
  split.
  - intros source s img s' H.
    apply add_image_ok in H as (_ & _ & _ & fs1 & _ & Hsave).
    exact (write_meta_ok _ _ _ _ Hsave).
  - intros coll_list s r s'.
    unfold set_collection, bind, assign_collection, get_self, on_disk.
    cbn [fst snd].
    destruct (save _ (snd s)) as [[u|e] fs'] eqn:Hsave; [|discriminate].
    intros H. injection H as _ <-. cbn [fst snd collection].
    split; [reflexivity|]. exact (write_meta_ok _ _ _ _ Hsave).
Qed.

(** C8. [add_image] on a source whose name does not end in an authorized
    extension raises [ValueError] and changes nothing: the collection and
    the disk (sidecar and directory) are as before. *)
Theorem add_image_unsupported (source : string) (s : Collection * filesystem) :
  is_authorized (ntpath_basename (clean_source source)) = false ->
  add_image source s
  = (Raise (ValueError ("Unauthorized file format for: "
                        +:+ ntpath_basename (clean_source source))), s).
Proof. intros H. unfold add_image. cbv zeta. now rewrite H. Qed.

End StoreProperties.

(** ** The round trip of the sidecar *)

(** C3. The sidecar codec round-trips: decoding the text that
    [__write_meta] writes for a collection yields its title and its image
    list unchanged, every optional field included. This holds for any
    [json] library whose [loads] reads back the two texts that [dumps]
    writes for the collection's document, and without condition for the
    printer and parser of [Json]. *)
Theorem sidecar_roundtrip :
  (forall (Lib : PyLib) (c : Collection) (path : string),
      json_loads (json_dumps None (collection_to_dict c))
        = Some (collection_to_dict c) ->
      json_loads (json_dumps (Some 4) (collection_to_dict c))
        = Some (collection_to_dict c) ->
      exists text,
        formatted_json c = OK text
        /\ decode_meta path text
           = OK (mkCollection path (coll_title c) (collection c)))
  /\ (forall (c : Collection) (path : string),
        exists text,
          @formatted_json py_lib c = OK text
          /\ @decode_meta py_lib path text
             = OK (mkCollection path (coll_title c) (collection c))).
Proof.
  split.
  - intros Lib c path. apply decode_formatted_json.
  - intros c path. apply (@decode_formatted_json py_lib);
      exact (json_loads_dumps _ _).
Qed.

(** ** The directory scan of [__check_files] *)

(** C6 (amended). The scan admits the direct children of the directory
    whose lowercased name ends in .jpg, .jpeg, .png, .webp or .tiff, the
    name being kept as it is; it does not look at what kind of entry a name
    stands for, so a sub-directory with such a name is admitted too. *)
Theorem scan_admits_by_extension (fs : filesystem) (c : Collection)
    (listing : list string) :
  fs !! work_directory c = Some (Dir listing) ->
  exists c',
    check_files c fs = (OK c', fs)
    /\ forall f,
         f ∈ filenames (collection c') <->
         f ∈ filenames (collection c)
         \/ (f ∈ listing
             /\ exists ext, ext ∈ AUTHORIZED_IMAGE_FORMATS
                            /\ exists stem, Str.lower f = stem +:+ ext).
Proof.
  intros Hdir. unfold check_files, bind, ret. unfold os_listdir. rewrite Hdir.
  eexists. split; [reflexivity|]. cbn [collection].
  intros f. rewrite check_files_loop_filenames, is_authorized_spec. reflexivity.
Qed.

(** C6, as stated, fails: a sub-directory named sub.png is admitted. *)
Lemma check_files_admits_directory :
  let fs : filesystem :=
    {[ "/coll" := Dir ["sub.png"]; "/coll/sub.png" := Dir [] ]} in
  is_file fs (os_path_join "/coll" "sub.png") = false
  /\ check_files (mkCollection "/coll" None []) fs
     = (OK (mkCollection "/coll" None [bare "sub.png"]), fs).
Proof. cbv zeta. split; vm_compute; reflexivity. Qed.

(** ** Duplicate additions *)

(* [add_image] appends without looking at what the list holds. *)
Lemma add_image_appends `{Lib : PyLib} (source : string)
    (s s' : Collection * filesystem) (img : CollectionImage) :
  add_image source s = (OK img, s') ->
  filenames (collection (fst s'))
  = filenames (collection (fst s)) ++ [filename img].
Proof.
  intros H. apply add_image_ok in H as (_ & -> & -> & _).
  cbn [collection]. now rewrite filenames_app.
Qed.

(** C1, on the code: adding /tmp/a.png to a collection that already holds
    a.png succeeds and leaves two images named a.png in the list; the
    membership test that [__check_files] makes before it appends is missing
    from [add_image]. *)
Theorem add_image_duplicate :
  let fs : filesystem :=
    {[ "/coll" := Dir ["a.png"]; "/coll/a.png" := File "old";
       "/tmp" := Dir ["a.png"]; "/tmp/a.png" := File "new" ]} in
  let c := mkCollection "/coll" (Some "Untitled Collection") [bare "a.png"] in
  exists s',
    @add_image py_lib "/tmp/a.png" (c, fs) = (OK (bare "a.png"), s')
    /\ filenames (collection (fst s')) = ["a.png"; "a.png"]
    /\ ~ NoDup (filenames (collection (fst s'))).
Proof.
  cbv zeta.
  destruct (@add_image py_lib "/tmp/a.png" _) as [r s'] eqn:H.
  assert (Hr : r = OK (bare "a.png")).
  { apply (f_equal fst) in H. cbn [fst] in H. rewrite <- H. vm_compute. reflexivity. }
  subst r. exists s'. split; [reflexivity|].
  apply add_image_appends in H. cbn in H. rewrite H. split; [reflexivity|].
  intros Hnd. apply NoDup_cons in Hnd as [Hnot _]. apply Hnot.
  apply list_elem_of_singleton. reflexivity.
Qed.

(** ** The properties on concrete disks, with the library model [py_lib] *)

(** The round trip on a collection of two images, with the JSON text of
    [Json]. *)
Lemma sidecar_roundtrip_witness :
  let c := mkCollection "/coll" (Some "Salon \ 1919")
             [ mkImage "wl.png" (Some "Water Lilies") (Some "Monet") (Some "1919")
                 (Some "Oil on canvas") (Some "MoMA") None (Some "100x100cm");
               bare "b.JPG" ] in
  exists text,
    @formatted_json py_lib c = OK text
    /\ @decode_meta py_lib "/coll" text
       = OK (mkCollection "/coll" (coll_title c) (collection c)).
Proof.
  cbv zeta.
  apply (proj1 sidecar_roundtrip py_lib); vm_compute; reflexivity.
Defined.

(** [mutations_save] on the addition of /tmp/a.png and on a replacement of
    the list. *)
Lemma mutations_save_witness :
  (let s' := snd (@add_image py_lib "/tmp/a.png" (example_collection, example_disk)) in
   exists text, @formatted_json py_lib (fst s') = OK text
                /\ snd s' !! meta_file_path (fst s') = Some (File text))
  /\ (let s' := snd (@set_collection py_lib [bare "z.png"; bare "b.png"]
                       (example_collection, example_disk)) in
      collection (fst s') = [bare "z.png"; bare "b.png"]
      /\ exists text, @formatted_json py_lib (fst s') = OK text
                      /\ snd s' !! meta_file_path (fst s') = Some (File text)).
Proof.
  cbv zeta. split.
  - apply (proj1 (@mutations_save py_lib) "/tmp/a.png"
             (example_collection, example_disk) (bare "a.png")).
    vm_compute. reflexivity.
  - apply (proj2 (@mutations_save py_lib) [bare "z.png"; bare "b.png"]
             (example_collection, example_disk) tt).
    vm_compute. reflexivity.
Defined.

(** [add_image_unsupported] on /tmp/doc.pdf. *)
Lemma add_image_unsupported_witness :
  @add_image py_lib "/tmp/doc.pdf" (example_collection, example_disk)
  = (Raise (ValueError "Unauthorized file format for: doc.pdf"),
     (example_collection, example_disk)).
Proof.
  exact (@add_image_unsupported py_lib "/tmp/doc.pdf"
           (example_collection, example_disk) eq_refl).
Defined.

(** [load_empty_or_missing] on a path that does not exist, on an empty
    directory and on a directory with two entries. *)
Lemma load_empty_or_missing_witness :
  @load py_lib "/missing" example_disk = (Raise FileNotFoundError, example_disk)
  /\ @load py_lib "/empty" example_disk = (Raise FileNotFoundError, example_disk)
  /\ fst (@load py_lib "/coll" example_disk) <> Raise FileNotFoundError.
Proof.
  split; [|split].
  - apply (proj1 (@load_empty_or_missing py_lib "/missing" example_disk)).
    left. vm_compute. reflexivity.
  - apply (proj1 (@load_empty_or_missing py_lib "/empty" example_disk)).
    right. vm_compute. reflexivity.
  - apply (proj2 (@load_empty_or_missing py_lib "/coll" example_disk)
             "b.png" ["notes.txt"]).
    + vm_compute. reflexivity.
    + intros H. exfalso. revert H. rewrite !elem_of_cons, elem_of_nil.
      intros [H|[H|[]]]; discriminate.
Defined.

(** [scan_admits_by_extension] on a directory with an image, a text file
    and a sub-directory named like an image. *)
Lemma scan_admits_by_extension_witness :
  let fs : filesystem :=
    {[ "/coll" := Dir ["photo.JPG"; "notes.txt"; "sub.png"];
       "/coll/photo.JPG" := File "J";
       "/coll/notes.txt" := File "N";
       "/coll/sub.png" := Dir [] ]} in
  let c := mkCollection "/coll" None [] in
  exists c',
    check_files c fs = (OK c', fs)
    /\ forall f,
         f ∈ filenames (collection c') <->
         f ∈ filenames (collection c)
         \/ (f ∈ ["photo.JPG"; "notes.txt"; "sub.png"]
             /\ exists ext, ext ∈ AUTHORIZED_IMAGE_FORMATS
                            /\ exists stem, Str.lower f = stem +:+ ext).
Proof.
  cbv zeta. apply scan_admits_by_extension. vm_compute. reflexivity.
Defined.

(** * Further properties of the store *)

Lemma image_in_filename (x : CollectionImage) (l : list CollectionImage) :
  image_in x l = true <-> filename x ∈ filenames l.
Proof.
  unfold image_in, image_eq, filenames.
  induction l as [|e l IH]; simpl.
  - rewrite elem_of_nil. split; [discriminate | tauto].
  - rewrite orb_true_iff, String.eqb_eq, IH, elem_of_cons.
    split; (intros [H|H]; [left; now symmetry | now right]).
Qed.

(** X1. [==] on images compares the filenames and nothing else, so [in]
    finds an image in a list exactly when some image of the list has its
    filename, whatever the metadata of either. *)
Theorem image_identity (x y : CollectionImage) (l : list CollectionImage) :
  (image_eq x y = true <-> filename x = filename y)
  /\ (image_in x l = true <-> exists e, e ∈ l /\ filename e = filename x)
  /\ (filename x = filename y -> image_in x l = image_in y l).
Proof.
  split; [apply String.eqb_eq|]. split.
  - rewrite image_in_filename. unfold filenames. rewrite list_elem_of_fmap.
    split; intros (e & H1 & H2); exists e; auto.
  - intros H. unfold image_in, image_eq. now rewrite H.
Qed.

Lemma add_entry_elem (name : string) (entries : list string) :
  name ∈ add_entry name entries.
Proof.
  unfold add_entry. case_bool_decide; [assumption|].
  apply elem_of_app. right. now apply list_elem_of_singleton.
Qed.



Lemma add_entry_keeps (name x : string) (entries : list string) :
  x ∈ entries -> x ∈ add_entry name entries.
Proof.
  intros H. unfold add_entry. case_bool_decide; [assumption|].
  apply elem_of_app. now left.
Qed.


Section Disk.

Context `{Lib : PyLib}.

(* What a successful [__write_meta] did to the disk. *)
Lemma write_meta_effect (c : Collection) (fs fs' : filesystem) (r : unit) :
  write_meta c fs = (OK r, fs') ->
  exists entries text,
    fs !! work_directory c = Some (Dir entries)
    /\ formatted_json c = OK text
    /\ fs' = <[meta_file_path c := File text]>
               (<[work_directory c := Dir (add_entry META_FILENAME entries)]> fs).
Proof.
  destruct r.
  unfold write_meta, bind, open_w, create_file, of_result, file_write, meta_file_path.
  destruct (fs !! os_path_join (work_directory c) META_FILENAME) as [[t|es]|];
    try discriminate;
    (destruct (fs !! work_directory c) as [[t'|entries]|]; try discriminate);
    (destruct (formatted_json c) as [text|e]; [|discriminate]);
    intros H; injection H as <-; exists entries, text;
    (split; [reflexivity|]); (split; [reflexivity|]);
    now rewrite insert_insert_eq.
Qed.


(* [__check_files] reads the disk and leaves it as it is. *)
Lemma check_files_ok (c c' : Collection) (fs fs' : filesystem) :
  check_files c fs = (OK c', fs') ->
  fs' = fs
  /\ exists listing,
       fs !! work_directory c = Some (Dir listing)
       /\ c' = mkCollection (work_directory c) (coll_title c)
                 (check_files_loop listing (collection c)).
Proof.
  unfold check_files, bind, ret, os_listdir.
  destruct (fs !! work_directory c) as [[t|listing]|]; try discriminate.
  intros H. injection H as <- <-. split; [reflexivity|]. now exists listing.
Qed.

(* What a successful [load] went through: the collection it returns is the
   reconciliation of some list of images against the listing of a disk
   [fs1], saved on that disk. *)
Lemma load_ok (path : string) (fs fs' : filesystem) (c : Collection) :
  load path fs = (OK c, fs') ->
  exists fs1 listing t images,
    fs1 !! path = Some (Dir listing)
    /\ c = mkCollection path t (check_files_loop listing images)
    /\ write_meta c fs1 = (OK tt, fs').
Proof.
  unfold load. unfold bind at 1. unfold os_listdir at 1.
  destruct (fs !! path) as [[t|listing]|] eqn:Hdir; try discriminate.
  case_bool_decide; [discriminate|].
  unfold bind at 1. unfold os_listdir at 1. rewrite Hdir.
  unfold bind at 1.
  destruct (if bool_decide (META_FILENAME ∈ listing) then _ else _)
    as [[loaded|e] fs1] eqn:Hloaded; [|discriminate].
  assert (Hwd : work_directory loaded = path).
  { destruct (bool_decide (META_FILENAME ∈ listing)).
    - unfold load_meta, bind, of_result in Hloaded.
      destruct (read_file _ fs) as [[text|e] fs0]; [|discriminate].
      destruct (decode_meta path text) as [d|e] eqn:Hd; [|discriminate].
      injection Hloaded as <- _. now apply decode_meta_work_directory in Hd.
    - unfold bind, ret in Hloaded.
      destruct (create_meta path fs) as [[u|e] fs0]; [|discriminate].
      now injection Hloaded as <- _. }
  unfold bind at 1.
  destruct (check_files loaded fs1) as [[checked|e] fs2] eqn:Hchecked; [|discriminate].
  apply check_files_ok in Hchecked as (-> & listing1 & Hdir1 & ->).
  unfold bind, ret.
  destruct (write_meta _ fs1) as [[[]|e] fs3] eqn:Hw; [|discriminate].
  intros Hres. injection Hres as <- <-. rewrite Hwd in *.
  exists fs1, listing1, (coll_title loaded), (collection loaded).
  split; [exact Hdir1|]. split; [reflexivity | exact Hw].
Qed.

End Disk.

(** X2. Reconciliation keeps the filenames distinct: when no two images of
    the collection share a filename, none do after [__check_files], on
    whatever listing. *)
Theorem check_files_keeps_distinct (c c' : Collection) (fs fs' : filesystem) :
  check_files c fs = (OK c', fs') ->
  NoDup (filenames (collection c)) ->
  NoDup (filenames (collection c')).
Proof.
  intros H Hnd. apply check_files_ok in H as (_ & listing & _ & ->).
  cbn [collection]. now apply check_files_loop_NoDup.
Qed.

Lemma bind_ok {S A B} (m : M S A) (k : A -> M S B) (s s' : S) (a : A) :
  m s = (OK a, s') -> bind m k s = k a s'.
Proof. intros H. unfold bind. now rewrite H. Qed.

Lemma bind_raise {S A B} (m : M S A) (k : A -> M S B) (s s' : S) (e : exn) :
  m s = (Raise e, s') -> bind m k s = (Raise e, s').
Proof. intros H. unfold bind. now rewrite H. Qed.




Section Loading.

Context `{Lib : PyLib}.

(** X4. A successful [load] leaves the sidecar in step with what it returns:
    the collection has the path as its work directory, and the sidecar,
    listed in the directory, holds the text computed for it. *)
Theorem load_saves (path : string) (fs fs' : filesystem) (c : Collection) :
  load path fs = (OK c, fs') ->
  work_directory c = path
  /\ exists text entries,
       formatted_json c = OK text
       /\ fs' !! os_path_join path META_FILENAME = Some (File text)
       /\ fs' !! path = Some (Dir entries)
       /\ META_FILENAME ∈ entries.
Proof.
  intros H. apply load_ok in H as (fs1 & listing & t & images & Hdir & -> & Hw).
  split; [reflexivity|].
  apply write_meta_effect in Hw as (entries & text & Hdir' & Htext & ->).
  unfold meta_file_path. cbn [work_directory] in *.
  exists text, (add_entry META_FILENAME entries). split; [exact Htext|].
  split; [apply lookup_insert_eq|]. split; [|apply add_entry_elem].
  rewrite lookup_insert_ne by apply os_path_join_meta_neq. apply lookup_insert_eq.
Qed.

(* The library reads back every document it writes. *)
Hypothesis lossless : forall indent j, json_loads (json_dumps indent j) = Some j.








End Loading.

Lemma lower_app (a b : string) : Str.lower (a +:+ b) = Str.lower a +:+ Str.lower b.
Proof.
  induction a as [|x a IH]; [reflexivity|].
  rewrite string_app_cons. cbn [Str.lower]. now rewrite IH, string_app_cons.
Qed.

Lemma drop_app_plus (a b : string) (m : nat) :
  Str.drop (String.length a + m) (a +:+ b) = Str.drop m b.
Proof.
  induction a as [|x a IH]; [reflexivity|].
  rewrite string_app_cons. exact IH.
Qed.

(* a suffix no longer than the second part is looked for in that part *)
Lemma endswith_app (a b suf : string) :
  String.length suf <= String.length b ->
  Str.endswith (a +:+ b) suf = Str.endswith b suf.
Proof.
  intros H. unfold Str.endswith. rewrite string_length_app.
  replace (String.length a + String.length b - String.length suf)
    with (String.length a + (String.length b - String.length suf)) by lia.
  rewrite drop_app_plus.
  rewrite (leb_correct _ _ H), leb_correct by lia. reflexivity.
Qed.

Lemma not_authorized_meta_suffix (p : string) :
  is_authorized (p +:+ META_FILENAME) = false.
Proof.
  unfold is_authorized, Str.endswith_any, AUTHORIZED_IMAGE_FORMATS.
  rewrite lower_app. cbn [existsb].
  rewrite !endswith_app by (cbn; lia). reflexivity.
Qed.

Lemma os_path_join_relative (a b : string) :
  Str.startswith b "/" = false ->
  exists prefix, (forall b', Str.startswith b' "/" = false ->
                             os_path_join a b' = prefix +:+ b')
                 /\ os_path_join a b = prefix +:+ b.
Proof.
  intros Hb. unfold os_path_join.
  destruct (String.eqb a "" || Str.endswith a "/").
  - exists a. split; [|now rewrite Hb]. intros b' Hb'. now rewrite Hb'.
  - exists (a +:+ "/"). rewrite Hb. split; [|now rewrite string_app_assoc].
    intros b' Hb'. now rewrite Hb', string_app_assoc.
Qed.

(* The copy of an authorized name never lands on the sidecar. *)
Lemma authorized_not_meta (dir name : string) :
  is_authorized name = true ->
  os_path_join dir name <> os_path_join dir META_FILENAME.
Proof.
  intros Ha Heq.
  destruct (os_path_join_relative dir META_FILENAME eq_refl) as (prefix & Hrel & Hmeta).
  destruct (Str.startswith name "/") eqn:Hs.
  - unfold os_path_join at 1 in Heq. rewrite Hs in Heq.
    rewrite Hmeta in Heq. subst name.
    now rewrite not_authorized_meta_suffix in Ha.
  - rewrite (Hrel name Hs), Hmeta in Heq.
    apply (inj (String.append prefix)) in Heq. subst name. discriminate.
Qed.

(* What a successful [copyfile] did. *)
Lemma copyfile_effect (src dir name : string) (fs fs' : filesystem) (r : unit) :
  copyfile src dir name fs = (OK r, fs') ->
  exists content entries,
    fs !! src = Some (File content)
    /\ fs !! dir = Some (Dir entries)
    /\ os_path_join dir name <> dir
    /\ fs' = <[os_path_join dir name := File content]>
               (<[dir := Dir (add_entry name entries)]> fs).
Proof.
  destruct r. unfold copyfile.
  destruct (bool_decide (src = os_path_join dir name) && bool_decide (is_Some (fs !! src)));
    [discriminate|].
  unfold bind, read_file, open_w, create_file, file_write.
  destruct (fs !! src) as [[content|es]|]; try discriminate.
  destruct (fs !! os_path_join dir name) as [[t|es]|] eqn:Hdst; try discriminate;
    (destruct (fs !! dir) as [[t'|entries]|] eqn:Hdir; try discriminate);
    intros H; injection H as <-; exists content, entries;
    (split; [reflexivity|]); (split; [reflexivity|]);
    (split; [intros Heq; rewrite Heq in Hdst; congruence|]);
    now rewrite insert_insert_eq.
Qed.

Lemma copyfile_missing (src dir name : string) (fs : filesystem) :
  fs !! src = None -> copyfile src dir name fs = (Raise FileNotFoundError, fs).
Proof.
  intros H. unfold copyfile. rewrite H.
  rewrite (bool_decide_eq_false_2 (is_Some None)) by (intros [x Hx]; discriminate).
  rewrite andb_false_r. unfold bind, read_file. now rewrite H.
Qed.

Lemma copyfile_same (dir name : string) (fs : filesystem) :
  is_Some (fs !! os_path_join dir name) ->
  copyfile (os_path_join dir name) dir name fs
  = (Raise (SameFileError (os_path_join dir name)), fs).
Proof.
  intros H. unfold copyfile.
  now rewrite (bool_decide_eq_true_2 _ eq_refl), (bool_decide_eq_true_2 _ H).
Qed.

Section Adding.

Context `{Lib : PyLib}.

(** X8. When [add_image] returns, the file named by [get_absolute_path] of
    the new image is a regular file with the content of the source, listed
    in the work directory. *)
Theorem add_image_copies (source : string) (s s' : Collection * filesystem)
    (img : CollectionImage) :
  add_image source s = (OK img, s') ->
  exists content entries,
    snd s !! clean_source source = Some (File content)
    /\ get_absolute_path img s'
       = (OK (os_path_join (work_directory (fst s')) (filename img)), s')
    /\ snd s' !! os_path_join (work_directory (fst s')) (filename img)
       = Some (File content)
    /\ snd s' !! work_directory (fst s') = Some (Dir entries)
    /\ filename img ∈ entries.
Proof.
  intros H. apply add_image_ok in H as (Ha & -> & Hc & fs1 & Hcopy & Hsave).
  cbv zeta in *. set (name := ntpath_basename (clean_source source)) in *.
  apply copyfile_effect in Hcopy as (content & entries & Hsrc & Hdir & Hne & ->).
  unfold save in Hsave.
  apply write_meta_effect in Hsave as (entries' & text & Hdir' & _ & Hfs').
  destruct s as [c fs], s' as [c' fs']. cbn [fst snd] in *. subst c'.
  unfold meta_file_path in Hfs'. cbn [work_directory filename bare] in *.
  rewrite lookup_insert_ne, lookup_insert_eq in Hdir' by exact Hne.
  injection Hdir' as <-.
  exists content, (add_entry META_FILENAME (add_entry name entries)).
  split; [exact Hsrc|]. split; [reflexivity|]. subst fs'. split; [|split].
  - rewrite lookup_insert_ne by (apply not_eq_sym, authorized_not_meta, Ha).
    rewrite lookup_insert_ne by (apply not_eq_sym, Hne).
    apply lookup_insert_eq.
  - rewrite lookup_insert_ne by apply os_path_join_meta_neq. apply lookup_insert_eq.
  - apply add_entry_keeps, add_entry_elem.
Qed.

(** X9. [add_image] of a source that does not exist raises
    [FileNotFoundError] and changes neither the collection nor the disk. *)
Theorem add_image_missing_source (source : string) (s : Collection * filesystem) :
  is_authorized (ntpath_basename (clean_source source)) = true ->
  snd s !! clean_source source = None ->
  add_image source s = (Raise FileNotFoundError, s).
Proof.
  intros Ha Hsrc. unfold add_image. cbv zeta. rewrite Ha. cbn [negb].
  unfold bind, get_self, except_SameFileError, on_disk. cbn [fst snd].
  rewrite (copyfile_missing _ _ _ _ Hsrc). now destruct s.
Qed.

(** X10. [add_image] of a file that already is the file of that name in the
    work directory raises [SameFileError] with the file name and changes
    neither the collection nor the disk. *)
Theorem add_image_same_file (source : string) (s : Collection * filesystem) :
  is_authorized (ntpath_basename (clean_source source)) = true ->
  clean_source source
  = os_path_join (work_directory (fst s)) (ntpath_basename (clean_source source)) ->
  is_Some (snd s !! clean_source source) ->
  add_image source s
  = (Raise (SameFileError (ntpath_basename (clean_source source))), s).
Proof.
  intros Ha Hsame Hex. unfold add_image. cbv zeta. rewrite Ha. cbn [negb].
  unfold bind, get_self, except_SameFileError, on_disk, raise. cbn [fst snd].
  rewrite Hsame at 1. rewrite copyfile_same by now rewrite <- Hsame.
  now destruct s.
Qed.

End Adding.

Lemma unchanged_refl paths fs : unchanged_outside paths fs fs.
Proof. intros p _. reflexivity. Qed.

Lemma unchanged_trans paths fs1 fs2 fs3 :
  unchanged_outside paths fs1 fs2 -> unchanged_outside paths fs2 fs3 ->
  unchanged_outside paths fs1 fs3.
Proof. intros H12 H23 p Hp. now rewrite (H23 p Hp), (H12 p Hp). Qed.

Lemma unchanged_insert paths (fs : filesystem) p nd :
  p ∈ paths -> unchanged_outside paths fs (<[p := nd]> fs).
Proof.
  intros Hin q Hq. apply lookup_insert_ne. intros ->. contradiction.
Qed.

Section Preserves.

Context {S : Type} (R : S -> S -> Prop).
Hypothesis R_refl : forall s, R s s.
Hypothesis R_trans : forall s1 s2 s3, R s1 s2 -> R s2 s3 -> R s1 s3.

Lemma preserves_ret {A} (a : A) : preserves R (ret a).
Proof. intros s r s' H. injection H as _ <-. apply R_refl. Qed.

Lemma preserves_raise {A} (e : exn) : preserves R (@raise S A e).
Proof. intros s r s' H. injection H as _ <-. apply R_refl. Qed.

Lemma preserves_of_result {A} (x : result A) : preserves R (of_result x).
Proof. intros s r s' H. injection H as _ <-. apply R_refl. Qed.

Lemma preserves_bind {A B} (m : M S A) (k : A -> M S B) :
  preserves R m -> (forall a, preserves R (k a)) -> preserves R (bind m k).
Proof.
  intros Hm Hk s r s'. unfold bind.
  destruct (m s) as [[a|e] s1] eqn:H1; intros H.
  - apply (R_trans _ s1); [now apply (Hm _ _ _ H1) | now apply (Hk a _ _ _ H)].
  - injection H as _ <-. now apply (Hm _ _ _ H1).
Qed.

Lemma preserves_except {A} (m handler : M S A) :
  preserves R m -> preserves R handler ->
  preserves R (except_SameFileError m handler).
Proof.
  intros Hm Hh s r s'. unfold except_SameFileError.
  destruct (m s) as [[a|e] s1] eqn:H1; intros H.
  - injection H as _ <-. now apply (Hm _ _ _ H1).
  - destruct e; try (injection H as _ <-; now apply (Hm _ _ _ H1)).
    apply (R_trans _ s1); [now apply (Hm _ _ _ H1) | now apply (Hh _ _ _ H)].
Qed.

End Preserves.

Lemma preserves_os_listdir paths path :
  preserves (unchanged_outside paths) (os_listdir path).
Proof.
  intros fs r fs'. unfold os_listdir.
  destruct (fs !! path) as [[t|es]|]; intros H; injection H as _ <-;
    apply unchanged_refl.
Qed.

Lemma preserves_read_file paths path :
  preserves (unchanged_outside paths) (read_file path).
Proof.
  intros fs r fs'. unfold read_file.
  destruct (fs !! path) as [[t|es]|]; intros H; injection H as _ <-;
    apply unchanged_refl.
Qed.

Lemma preserves_create_file paths dir name :
  os_path_join dir name ∈ paths -> dir ∈ paths ->
  preserves (unchanged_outside paths) (create_file dir name).
Proof.
  intros H1 H2 fs r fs'. unfold create_file.
  destruct (fs !! dir) as [[t|es]|]; intros H; injection H as _ <-;
    try apply unchanged_refl.
  eapply unchanged_trans; now apply unchanged_insert.
Qed.

Lemma preserves_open_w paths dir name :
  os_path_join dir name ∈ paths -> dir ∈ paths ->
  preserves (unchanged_outside paths) (open_w dir name).
Proof.
  intros H1 H2 fs r fs'. unfold open_w.
  destruct (fs !! os_path_join dir name) as [[t|es]|];
    try apply (preserves_create_file paths dir name H1 H2).
  intros H; injection H as _ <-. apply unchanged_refl.
Qed.

Lemma preserves_open_a_close paths dir name :
  os_path_join dir name ∈ paths -> dir ∈ paths ->
  preserves (unchanged_outside paths) (open_a_close dir name).
Proof.
  intros H1 H2 fs r fs'. unfold open_a_close.
  destruct (fs !! os_path_join dir name) as [[t|es]|];
    try apply (preserves_create_file paths dir name H1 H2);
    intros H; injection H as _ <-; apply unchanged_refl.
Qed.

Lemma preserves_file_write paths path text :
  path ∈ paths -> preserves (unchanged_outside paths) (file_write path text).
Proof.
  intros Hin fs r fs' H. injection H as _ <-. now apply unchanged_insert.
Qed.

Lemma preserves_copyfile paths src dir name :
  os_path_join dir name ∈ paths -> dir ∈ paths ->
  preserves (unchanged_outside paths) (copyfile src dir name).
Proof.
  intros H1 H2 fs r fs'. unfold copyfile.
  destruct (_ && _).
  - intros H; injection H as _ <-. apply unchanged_refl.
  - apply (preserves_bind _ (unchanged_trans paths)).
    + apply preserves_read_file.
    + intros content.
      apply (preserves_bind _ (unchanged_trans paths)).
      * now apply preserves_open_w.
      * intros _. now apply preserves_file_write.
Qed.

Section Frames.

Context `{Lib : PyLib}.

Lemma preserves_write_meta paths (c : Collection) :
  meta_file_path c ∈ paths -> work_directory c ∈ paths ->
  preserves (unchanged_outside paths) (write_meta c).
Proof.
  intros H1 H2. unfold write_meta.
  apply (preserves_bind _ (unchanged_trans paths)).
  - now apply preserves_open_w.
  - intros _.
    apply (preserves_bind _ (unchanged_trans paths)).
    + apply preserves_of_result, unchanged_refl.
    + intros text. now apply preserves_file_write.
Qed.

Lemma preserves_check_files paths (c : Collection) :
  preserves (unchanged_outside paths) (check_files c).
Proof.
  unfold check_files.
  apply (preserves_bind _ (unchanged_trans paths)).
  - apply preserves_os_listdir.
  - intros listing. apply preserves_ret, unchanged_refl.
Qed.

Lemma check_files_work_directory (c c' : Collection) (fs fs' : filesystem) :
  check_files c fs = (OK c', fs') -> work_directory c' = work_directory c.
Proof. intros H. now apply check_files_ok in H as (_ & listing & _ & ->). Qed.

(** X12. Whatever its outcome, [save] changes nothing on the disk but the
    sidecar and the listing of the work directory. *)
Theorem save_frame (c : Collection) (fs fs' : filesystem) (r : result unit) :
  save c fs = (r, fs') ->
  forall p, p <> meta_file_path c -> p <> work_directory c -> fs' !! p = fs !! p.
Proof.
  intros H p Hp1 Hp2.
  apply (preserves_write_meta [meta_file_path c; work_directory c] c) in H.
  - apply H. rewrite !elem_of_cons, elem_of_nil. tauto.
  - apply elem_of_cons. now left.
  - apply elem_of_cons. right. apply elem_of_cons. now left.
Qed.

(** X13. Whatever its outcome, [load] changes nothing on the disk but the
    sidecar and the listing of the directory: the images are never
    written, moved or removed. *)
Theorem load_frame (path : string) (fs fs' : filesystem) (r : result Collection) :
  load path fs = (r, fs') ->
  forall p, p <> os_path_join path META_FILENAME -> p <> path -> fs' !! p = fs !! p.
Proof.
  intros H p Hp1 Hp2.
  set (paths := [os_path_join path META_FILENAME; path]).
  assert (Hmeta : os_path_join path META_FILENAME ∈ paths)
    by (apply elem_of_cons; now left).
  assert (Hpath : path ∈ paths)
    by (apply elem_of_cons; right; apply elem_of_cons; now left).
  assert (Hload : preserves (unchanged_outside paths) (load path)).
  { unfold load.
    apply (preserves_bind _ (unchanged_trans paths)).
    { apply preserves_os_listdir. }
    intros listing. case_bool_decide; [apply preserves_raise, unchanged_refl|].
    apply (preserves_bind _ (unchanged_trans paths)).
    { apply preserves_os_listdir. }
    intros listing'. intros s0 r0 s0'. unfold bind at 1.
    destruct (if bool_decide _ then _ else _) as [[loaded|e] fs1] eqn:Hl.
    - assert (work_directory loaded = path
              /\ unchanged_outside paths s0 fs1) as [Hwd H01].
      { destruct (bool_decide (META_FILENAME ∈ listing')).
        - unfold load_meta, bind, of_result, read_file in Hl.
          destruct (s0 !! _) as [[text|es]|]; try discriminate.
          destruct (decode_meta path text) as [d|e] eqn:Hd; [|discriminate].
          injection Hl as <- <-. split; [|apply unchanged_refl].
          now apply decode_meta_work_directory in Hd.
        - unfold bind, ret in Hl.
          destruct (create_meta path s0) as [[u|e] fs0] eqn:Hc; [|discriminate].
          injection Hl as <- <-. split; [reflexivity|].
          now apply (preserves_open_a_close paths path META_FILENAME Hmeta Hpath) in Hc. }
      intros Hrest. apply (unchanged_trans _ _ fs1); [exact H01|].
      revert Hrest. unfold bind at 1.
      destruct (check_files loaded fs1) as [[checked|e] fs2] eqn:Hc.
      + pose proof (check_files_work_directory _ _ _ _ Hc) as Hwd'.
        apply (preserves_check_files paths) in Hc.
        intros Hrest. apply (unchanged_trans _ _ fs2); [exact Hc|].
        revert Hrest.
        apply (preserves_bind _ (unchanged_trans paths)).
        * apply preserves_write_meta; unfold meta_file_path;
            rewrite Hwd', Hwd; assumption.
        * intros _. apply preserves_ret, unchanged_refl.
      + intros Hrest. injection Hrest as _ <-.
        now apply (preserves_check_files paths) in Hc.
    - intros Hrest. injection Hrest as _ <-.
      destruct (bool_decide (META_FILENAME ∈ listing')).
      + unfold load_meta, bind, of_result, read_file in Hl.
        destruct (s0 !! _) as [[text|es]|]; injection Hl as _ <-; apply unchanged_refl.
      + unfold bind, ret in Hl.
        destruct (create_meta path s0) as [[u|e'] fs0] eqn:Hc; [discriminate|].
        injection Hl as _ <-.
        now apply (preserves_open_a_close paths path META_FILENAME Hmeta Hpath) in Hc. }
  apply (Hload _ _ _ H). unfold paths. rewrite !elem_of_cons, elem_of_nil. tauto.
Qed.

End Frames.

Lemma substring_prefix (p q : string) : substring 0 (String.length p) (p +:+ q) = p.
Proof.
  induction p as [|x p IH]; [now destruct q|].
  rewrite string_app_cons. cbn [String.length substring]. now rewrite IH.
Qed.

(** X14. The cleaning at the head of [add_image] takes a path written as the
    text of a bytes object, b'...', back to the path between the quotes,
    and leaves alone a path that does not start with b'. *)
Theorem clean_source_bytes_repr :
  (forall p, clean_source ("b'" +:+ p +:+ "'") = p)
  /\ (forall source, Str.startswith source "b'" = false ->
                     clean_source source = source).
Proof.
  split.
  - intros p. unfold clean_source.
    assert (Hend : Str.endswith ("b'" +:+ p +:+ "'") "'" = true).
    { apply endswith_spec. exists ("b'" +:+ p). now rewrite string_app_assoc. }
    rewrite Hend.
    change ("b'" +:+ p +:+ "'") with (String "b" (String "'" (p +:+ "'"))).
    cbn [Str.startswith Ascii.eqb Bool.eqb andb].
    unfold Str.slice_2_m1. cbn [String.length substring].
    rewrite string_length_app. cbn [String.length].
    replace (S (S (String.length p + 1)) - 1 - 2) with (String.length p) by lia.
    apply substring_prefix.
  - intros source H. unfold clean_source. now rewrite H.
Qed.

Section Errors.

Context `{Lib : PyLib}.

(** X11. [add_image], whatever its outcome, changes nothing on the disk but
    the copy in the work directory, the sidecar and the listing of the
    work directory; the source, when it is none of these, stays as it
    was. *)
Theorem add_image_frame (source : string) (s s' : Collection * filesystem)
    (r : result CollectionImage) :
  add_image source s = (r, s') ->
  work_directory (fst s') = work_directory (fst s)
  /\ forall p,
       p <> os_path_join (work_directory (fst s))
              (ntpath_basename (clean_source source)) ->
       p <> os_path_join (work_directory (fst s)) META_FILENAME ->
       p <> work_directory (fst s) ->
       snd s' !! p = snd s !! p.
Proof.
  destruct s as [c fs]. cbn [fst snd].
  set (name := ntpath_basename (clean_source source)).
  set (paths := [os_path_join (work_directory c) name;
                 os_path_join (work_directory c) META_FILENAME; work_directory c]).
  assert (Hout : forall fs', unchanged_outside paths fs fs' ->
            forall p, p <> os_path_join (work_directory c) name ->
                      p <> os_path_join (work_directory c) META_FILENAME ->
                      p <> work_directory c -> fs' !! p = fs !! p).
  { intros fs' H p H1 H2 H3. apply H. unfold paths.
    rewrite !elem_of_cons, elem_of_nil. tauto. }
  assert (Hdst : os_path_join (work_directory c) name ∈ paths)
    by (apply elem_of_cons; now left).
  assert (Hmeta : os_path_join (work_directory c) META_FILENAME ∈ paths)
    by (apply elem_of_cons; right; apply elem_of_cons; now left).
  assert (Hwd : work_directory c ∈ paths)
    by (do 2 (apply elem_of_cons; right); apply elem_of_cons; now left).
  unfold add_image. cbv zeta. fold name.
  destruct (is_authorized name); cbn [negb].
  2:{ intros H. injection H as _ <-. split; [reflexivity|].
      apply Hout, unchanged_refl. }
  unfold bind, get_self, except_SameFileError, on_disk, assign_collection, ret, raise.
  cbn [fst snd].
  destruct (copyfile _ _ _ fs) as [[u|e] fs1] eqn:Hcopy.
  - apply (preserves_copyfile paths _ _ _ Hdst Hwd) in Hcopy. cbn [fst snd].
    set (c' := mkCollection _ _ _).
    destruct (save c' fs1) as [[u'|e] fs2] eqn:Hsave; unfold save in Hsave;
      apply (preserves_write_meta paths c' Hmeta Hwd) in Hsave;
      intros H; injection H as _ <-; (split; [reflexivity|]);
      apply Hout; now apply (unchanged_trans _ _ fs1).
  - apply (preserves_copyfile paths _ _ _ Hdst Hwd) in Hcopy.
    destruct e; intros H; injection H as _ <-; (split; [reflexivity|]);
      now apply Hout.
Qed.

(** X15. A sidecar that [json.loads] does not read makes [load] raise
    [JSONDecodeError], the disk left as it was. *)
Theorem load_undecodable_sidecar (path text : string) (fs : filesystem)
    (entries : list string) :
  fs !! path = Some (Dir entries) ->
  META_FILENAME ∈ entries ->
  fs !! os_path_join path META_FILENAME = Some (File text) ->
  json_loads text = None ->
  load path fs = (Raise JSONDecodeError, fs).
Proof.
  intros Hdir Hmeta Hfile Hbad. unfold load.
  rewrite (bind_ok _ _ _ _ _ (os_listdir_dir _ _ _ Hdir)).
  rewrite bool_decide_eq_false_2 by (intros ->; now apply elem_of_nil in Hmeta).
  rewrite (bind_ok _ _ _ _ _ (os_listdir_dir _ _ _ Hdir)).
  rewrite (bool_decide_eq_true_2 _ Hmeta).
  apply bind_raise. unfold load_meta.
  rewrite (bind_ok _ (fun coll_json => of_result (decode_meta path coll_json))
             fs fs text) by (unfold read_file; now rewrite Hfile).
  unfold of_result, decode_meta. now rewrite Hbad.
Qed.

(** X16. Decoding a sidecar whose document is a dict without the key "title"
    raises [KeyError] for that key, and one with a title and without the
    key "collection" raises [KeyError] for this one. *)
Theorem decode_meta_missing_key (path text : string) (members : list (string * json)) :
  json_loads text = Some (JObj members) ->
  (lookup_member members "title" = None ->
   decode_meta path text = Raise (KeyError "title"))
  /\ (is_Some (lookup_member members "title") ->
      lookup_member members "collection" = None ->
      decode_meta path text = Raise (KeyError "collection")).
Proof.
  intros Hdoc. unfold decode_meta, getitem, lookup_member. rewrite Hdoc. split.
  - destruct (List.find _ members); [discriminate | reflexivity].
  - destruct (List.find (fun kv => String.eqb kv.1 "title") members) as [kv|];
      [|intros [x Hx]; discriminate].
    intros _. destruct (List.find _ members); [discriminate | reflexivity].
Qed.

End Errors.

(** X17. [to_reference] returns a string exactly when the title, the year,
    the technique and the dimensions are set and either the artist is set
    and not empty or the production site is set; in every other case it
    raises a type error. An empty artist counts as no artist. *)
Theorem to_reference_defined (i : CollectionImage) :
  let complete :=
    title i <> None /\ year i <> None /\ technique i <> None
    /\ dimensions i <> None
    /\ (Str.truthy (artist i) = true \/ production_site i <> None) in
  (complete -> exists s, to_reference i = OK s)
  /\ (~ complete -> to_reference i = Raise TypeError).
Proof.
  destruct i as [f t a y te cs ps d]. cbv zeta.
  cbn [title artist year technique conservation_site production_site dimensions].
  unfold to_reference.
  cbn [title artist year technique conservation_site production_site dimensions].
  split.
  - intros (Ht & Hy & Hte & Hd & Ha).
    destruct t as [t|]; [|congruence]. destruct y as [y|]; [|congruence].
    destruct te as [te|]; [|congruence]. destruct d as [d|]; [|congruence].
    destruct (Str.truthy a) eqn:Htr.
    + destruct a as [a|]; [|discriminate]. cbn. eexists. reflexivity.
    + destruct Ha as [Ha|Ha]; [discriminate|].
      destruct ps as [ps|]; [|congruence]. cbn. eexists. reflexivity.
  - intros Hnot.
    destruct (Str.truthy a) eqn:Htr.
    + destruct a as [a|]; [|discriminate].
      destruct t, y, te, d; cbn; try reflexivity.
      exfalso. apply Hnot. repeat split; try discriminate. now left.
    + destruct t, ps, y, te, d; cbn; try reflexivity.
      exfalso. apply Hnot. repeat split; try discriminate. right. discriminate.
Qed.

Section AddThenLoad.

Context `{Lib : PyLib}.
Hypothesis lossless : forall indent j, json_loads (json_dumps indent j) = Some j.


End AddThenLoad.

(** ** The further properties on concrete disks *)

(** [image_identity] on an image with a title and a bare one of the same
    filename. *)
Lemma image_identity_witness :
  image_in (mkImage "b.png" (Some "T") None None None None None None)
    [bare "a.png"; bare "b.png"]
  = image_in (bare "b.png") [bare "a.png"; bare "b.png"].
Proof.
  apply (proj2 (proj2 (image_identity _ (bare "b.png") _))). reflexivity.
Defined.

(** [check_files_keeps_distinct] on the example disk. *)
Lemma check_files_keeps_distinct_witness :
  NoDup (filenames (collection
           (mkCollection "/coll" (Some "Untitled Collection")
              (check_files_loop ["b.png"; "notes.txt"] [bare "b.png"])))).
Proof.
  apply (check_files_keeps_distinct example_collection _ example_disk example_disk).
  - vm_compute. reflexivity.
  - apply NoDup_singleton.
Defined.


(** [load_saves] on the example disk. *)
Lemma load_saves_witness :
  let r := @load py_lib "/coll" example_disk in
  work_directory example_collection = "/coll"
  /\ exists text entries,
       @formatted_json py_lib example_collection = OK text
       /\ snd r !! os_path_join "/coll" META_FILENAME = Some (File text)
       /\ snd r !! "/coll" = Some (Dir entries)
       /\ META_FILENAME ∈ entries.
Proof.
  cbv zeta.
  apply (@load_saves py_lib "/coll" example_disk
           (snd (@load py_lib "/coll" example_disk)) example_collection).
  vm_compute. reflexivity.
Defined.




(** [add_image_copies] on the addition of /tmp/a.png. *)
Lemma add_image_copies_witness :
  let s' := snd (@add_image py_lib "/tmp/a.png" (example_collection, example_disk)) in
  exists content entries,
    example_disk !! @clean_source "/tmp/a.png" = Some (File content)
    /\ @get_absolute_path (bare "a.png") s'
       = (OK (os_path_join (work_directory (fst s')) "a.png"), s')
    /\ snd s' !! os_path_join (work_directory (fst s')) "a.png" = Some (File content)
    /\ snd s' !! work_directory (fst s') = Some (Dir entries)
    /\ "a.png" ∈ entries.
Proof.
  cbv zeta.
  apply (@add_image_copies py_lib "/tmp/a.png" (example_collection, example_disk)
           _ (bare "a.png")).
  vm_compute. reflexivity.
Defined.

(** [add_image_missing_source] on a source that the disk does not have. *)
Lemma add_image_missing_source_witness :
  @add_image py_lib "/tmp/none.png" (example_collection, example_disk)
  = (Raise FileNotFoundError, (example_collection, example_disk)).
Proof.
  apply (@add_image_missing_source py_lib); vm_compute; reflexivity.
Defined.

(** [add_image_same_file] on the image that the work directory holds. *)
Lemma add_image_same_file_witness :
  @add_image py_lib "/coll/b.png" (example_collection, example_disk)
  = (Raise (SameFileError "b.png"), (example_collection, example_disk)).
Proof.
  apply (@add_image_same_file py_lib "/coll/b.png"
           (example_collection, example_disk)).
  - vm_compute. reflexivity.
  - vm_compute. reflexivity.
  - eexists. vm_compute. reflexivity.
Defined.

(** [add_image_frame] on the addition of /tmp/a.png: the source is as it
    was. *)
Lemma add_image_frame_witness :
  snd (snd (@add_image py_lib "/tmp/a.png" (example_collection, example_disk)))
    !! "/tmp/a.png"
  = example_disk !! "/tmp/a.png".
Proof.
  apply (proj2 (@add_image_frame py_lib "/tmp/a.png"
                  (example_collection, example_disk) _ _ eq_refl));
    discriminate.
Defined.

(** [save_frame] on the example disk: the image is as it was. *)
Lemma save_frame_witness :
  snd (@save py_lib example_collection example_disk) !! "/coll/b.png"
  = example_disk !! "/coll/b.png".
Proof.
  apply (@save_frame py_lib example_collection example_disk _ _ eq_refl);
    discriminate.
Defined.

(** [load_frame] on the example disk: the text file is as it was. *)
Lemma load_frame_witness :
  snd (@load py_lib "/coll" example_disk) !! "/coll/notes.txt"
  = example_disk !! "/coll/notes.txt".
Proof.
  apply (@load_frame py_lib "/coll" example_disk _ _ eq_refl); discriminate.
Defined.

(** [clean_source_bytes_repr] on a plain path. *)
Lemma clean_source_bytes_repr_witness : clean_source "/tmp/a.png" = "/tmp/a.png".
Proof. apply (proj2 clean_source_bytes_repr). reflexivity. Defined.

(** [load_undecodable_sidecar] on a directory whose sidecar is the empty
    file that [__create_meta] leaves. *)
Lemma load_undecodable_sidecar_witness :
  @load py_lib "/coll" stale_disk = (Raise JSONDecodeError, stale_disk).
Proof.
  apply (@load_undecodable_sidecar py_lib "/coll" "" stale_disk
           ["b.png"; ".collection"]).
  - vm_compute. reflexivity.
  - apply elem_of_cons. right. apply elem_of_cons. now left.
  - vm_compute. reflexivity.
  - reflexivity.
Defined.

(** [decode_meta_missing_key] on the document of an empty dict and on one
    with a title alone. *)
Lemma decode_meta_missing_key_witness :
  @decode_meta py_lib "/coll" (Json.dumps None (JObj [])) = Raise (KeyError "title")
  /\ @decode_meta py_lib "/coll" (Json.dumps None (JObj [("title", JNull)]))
     = Raise (KeyError "collection").
Proof.
  split.
  - apply (proj1 (@decode_meta_missing_key py_lib "/coll" _ []
                    (json_loads_dumps None (JObj [])))).
    reflexivity.
  - apply (proj2 (@decode_meta_missing_key py_lib "/coll" _ [("title", JNull)]
                    (json_loads_dumps None (JObj [("title", JNull)])))).
    + eexists. reflexivity.
    + reflexivity.
Defined.

(** [to_reference_defined] on an image with an empty artist and no
    production site. *)
Lemma to_reference_defined_witness :
  to_reference (mkImage "a.png" (Some "T") (Some "") (Some "1919") (Some "Oil")
                  (Some "MoMA") None (Some "1x1cm"))
  = Raise TypeError.
Proof.
  apply (proj2 (to_reference_defined _)). cbn.
  intros (_ & _ & _ & _ & [H|H]); [discriminate | now apply H].
Defined.
